(** * File explorer backend: path confinement, session tokens, file operations

    A shallow embedding of the Python backend under
    [assignment/file-explorer/backend/app]:
    - [utils/security.py]   ([get_user_directory], [validate_path]),
    - [middleware/auth.py]  ([AuthMiddleware], [get_current_user]),
    - [files/routes.py]     (the five file operations).

    Python [str] values are lists of characters, exceptions are values of
    [exn] carried by the [outcome] monad, and the file system is a finite
    map from component lists to nodes that is threaded through every
    operation. *)

From Stdlib Require Import ZArith Ascii String List Bool Lia.
From Stdlib Require Import Numbers.DecimalString.
From stdpp Require Import gmap strings list fin_maps sorting.

Local Open Scope list_scope.

(** ** Python strings *)

Module PyStr.

Abbreviation pystr := (list ascii).

(** A literal: [lit "abc"] is the Python string ['abc']. *)
Definition lit (s : string) : pystr := list_ascii_of_string s.

Definition sep : ascii := "/"%char.
Definition dot : ascii := "."%char.

(** [s.startswith(p)] *)
Fixpoint startswith (p s : pystr) : bool :=
  match p, s with
  | [], _ => true
  | a :: p', b :: s' => bool_decide (a = b) && startswith p' s'
  | _ :: _, [] => false
  end.

(** [s.endswith(p)] *)
Definition endswith (p s : pystr) : bool := startswith (rev p) (rev s).

(** [s.replace(old, new)] for a two-character [old = a b]: the
    occurrences are found left to right and do not overlap. *)
Fixpoint replace2 (a b : ascii) (new : pystr) (s : pystr) : pystr :=
  match s with
  | [] => []
  | x :: t =>
      match t with
      | y :: t' =>
          if bool_decide (x = a) && bool_decide (y = b)
          then new ++ replace2 a b new t'
          else x :: replace2 a b new t
      | [] => [x]
      end
  end.

(** [s.lstrip(c)], [s.rstrip(c)] and [s.strip(c)] for a one-character
    argument. *)
Fixpoint lstrip (c : ascii) (s : pystr) : pystr :=
  match s with
  | x :: t => if bool_decide (x = c) then lstrip c t else s
  | [] => []
  end.

Definition rstrip (c : ascii) (s : pystr) : pystr := rev (lstrip c (rev s)).

Definition strip (c : ascii) (s : pystr) : pystr := rstrip c (lstrip c s).

(** [s.split(c)]: one more piece than there are occurrences of [c]. *)
Fixpoint split (c : ascii) (s : pystr) : list pystr :=
  match s with
  | [] => [[]]
  | x :: t =>
      if bool_decide (x = c) then [] :: split c t
      else match split c t with
           | h :: r => (x :: h) :: r
           | [] => [[x]]
           end
  end.

(** [c.join(l)] *)
Fixpoint join (c : ascii) (l : list pystr) : pystr :=
  match l with
  | [] => []
  | [x] => x
  | x :: r => x ++ c :: join c r
  end.


(** ASCII [c.lower()] and [s.lower()]. *)
Definition lower_char (c : ascii) : ascii :=
  let n := nat_of_ascii c in
  if (65 <=? n)%nat && (n <=? 90)%nat then ascii_of_nat (n + 32) else c.

Definition lower (s : pystr) : pystr := map lower_char s.

(** [str(n)] for an integer. *)
Definition of_Z (n : Z) : pystr :=
  lit (NilZero.string_of_int (Z.to_int n)).

End PyStr.

Import PyStr.

(** ** Exceptions and results *)

Inductive exn : Type :=
| HTTPException (status_code : Z) (detail : pystr)
| OSError (errno : Z) (strerror : pystr) (filename : pystr)
| JWTError.

Inductive outcome (A : Type) : Type :=
| Return (a : A)
| Raise (e : exn).

Arguments Return {A} a.
Arguments Raise {A} e.

#[global] Instance outcome_ret : MRet outcome := fun A a => Return a.

#[global] Instance outcome_bind : MBind outcome := fun A B k m =>
  match m with
  | Return a => k a
  | Raise e => Raise e
  end.

(** [try: m except Exception as e: h e] *)
Definition try_except {A} (m : outcome A) (h : exn -> outcome A) : outcome A :=
  match m with
  | Return a => Return a
  | Raise e => h e
  end.

Definition HTTP_400_BAD_REQUEST : Z := 400.
Definition HTTP_401_UNAUTHORIZED : Z := 401.
Definition HTTP_403_FORBIDDEN : Z := 403.
Definition HTTP_404_NOT_FOUND : Z := 404.
Definition HTTP_500_INTERNAL_SERVER_ERROR : Z := 500.

(** ** [os.path] (posixpath) *)

Module OsPath.

Definition dotdot : pystr := [dot; dot].
Definition curdir : pystr := [dot].

(** [os.path.isabs] *)
Definition isabs (p : pystr) : bool := startswith [sep] p.

(** [os.path.join(a, b)] *)
Definition join (a b : pystr) : pystr :=
  if startswith [sep] b then b
  else if bool_decide (a = []) || endswith [sep] a then a ++ b
  else a ++ sep :: b.

(** The count of leading slashes that [normpath] keeps: one, or two when
    the path starts with exactly two. *)
Definition initial_slashes (p : pystr) : nat :=
  if startswith [sep] p then
    if startswith [sep; sep] p && negb (startswith [sep; sep; sep] p)
    then 2 else 1
  else 0.

(** One round of the loop over the components in [normpath]. *)
Definition norm_step (slashes : nat) (new_comps : list pystr) (comp : pystr)
  : list pystr :=
  if bool_decide (comp = []) || bool_decide (comp = curdir) then new_comps
  else if negb (bool_decide (comp = dotdot))
          || (bool_decide (slashes = 0%nat) && bool_decide (new_comps = []))
          || bool_decide (last new_comps = Some dotdot)
       then new_comps ++ [comp]
       else removelast new_comps.

(** [os.path.normpath] *)
Definition normpath (p : pystr) : pystr :=
  if bool_decide (p = []) then curdir
  else
    let slashes := initial_slashes p in
    let comps := fold_left (norm_step slashes) (split sep p) [] in
    let path := replicate slashes sep ++ PyStr.join sep comps in
    if bool_decide (path = []) then curdir else path.

(** [os.path.abspath], with [os.getcwd()] passed in. *)
Definition abspath (cwd p : pystr) : pystr :=
  normpath (if isabs p then p else join cwd p).

End OsPath.

Import OsPath.

(** ** [utils/security.py]: [validate_path] *)

Definition validate_path (cwd base_path user_path : pystr) : outcome pystr :=
  if bool_decide (user_path = []) then Return base_path
  else
    let user_path := strip sep (replace2 sep sep [sep] (replace2 dot dot [] user_path)) in
    let full_path := OsPath.join base_path user_path in
    let resolved_path := abspath cwd full_path in
    let base_abs_path := abspath cwd base_path in
    if negb (startswith base_abs_path resolved_path)
    then Raise (HTTPException HTTP_403_FORBIDDEN (lit "Access denied: Invalid path"))
    else Return resolved_path.

(** The separator-boundary comparison of the specification: [p] is [root]
    itself or starts with [root] followed by the separator (a root that
    already ends with the separator, such as [/], is its own prefix). *)
Definition dir_prefix (root : pystr) : pystr :=
  if endswith [sep] root then root else root ++ [sep].

Definition is_within (root p : pystr) : bool :=
  bool_decide (p = root) || startswith (dir_prefix root) p.

(** ** The file system

    A tree without symbolic links: a finite map from the list of
    components below [/] to the node stored there.  The root directory is
    always present. *)

Module Fs.

Record node := Node { is_dir : bool; st_size : Z; st_mtime : Z }.

Abbreviation tree := (gmap (list pystr) node).

Record env := Env { cwd : pystr; now : Z }.

Definition ENOENT : Z := 2.
Definition EEXIST : Z := 17.
Definition ENOTDIR : Z := 20.
Definition EISDIR : Z := 21.

Definition strerror (n : Z) : pystr :=
  if (n =? ENOENT)%Z then lit "No such file or directory"
  else if (n =? EEXIST)%Z then lit "File exists"
  else if (n =? ENOTDIR)%Z then lit "Not a directory"
  else if (n =? EISDIR)%Z then lit "Is a directory"
  else lit "Unknown error".

Definition os_error (n : Z) (filename : pystr) : exn :=
  OSError n (strerror n) filename.

Definition root_node : node := Node true 4096 0.

Definition kind (t : tree) (p : list pystr) : option node :=
  if bool_decide (p = []) then Some root_node else t !! p.

(** A component that names an entry (neither empty, [.] nor [..]). *)
Definition is_name (c : pystr) : bool :=
  negb (bool_decide (c = []) || bool_decide (c = curdir) || bool_decide (c = dotdot)).

Definition step (cur : list pystr) (c : pystr) : list pystr :=
  if bool_decide (c = []) || bool_decide (c = curdir) then cur
  else if bool_decide (c = dotdot) then removelast cur
  else cur ++ [c].

(** Path resolution as the kernel does it: every directory that is walked
    through has to exist; the last position may be absent. *)
Fixpoint walk (t : tree) (cur : list pystr) (comps : list pystr) : Z + list pystr :=
  match comps with
  | [] => inr cur
  | c :: rest =>
      match kind t cur with
      | None => inl ENOENT
      | Some n => if is_dir n then walk t (step cur c) rest else inl ENOTDIR
      end
  end.

Definition components (p : pystr) : list pystr := filter (fun c => is_name c = true) (split sep p).

Definition start (e : env) (p : pystr) : list pystr :=
  if isabs p then [] else components (cwd e).

Definition resolve (e : env) (t : tree) (p : pystr) : Z + list pystr :=
  if bool_decide (p = []) then inl ENOENT
  else walk t (start e p) (split sep p).

(** [os.stat] *)
Definition stat (e : env) (t : tree) (p : pystr) : outcome node :=
  match resolve e t p with
  | inl n => Raise (os_error n p)
  | inr q =>
      match kind t q with
      | Some n => Return n
      | None => Raise (os_error ENOENT p)
      end
  end.

(** [os.path.exists], [os.path.isdir], [os.path.isfile] *)
Definition exists_ (e : env) (t : tree) (p : pystr) : bool :=
  match stat e t p with Return _ => true | Raise _ => false end.

Definition isdir (e : env) (t : tree) (p : pystr) : bool :=
  match stat e t p with Return n => is_dir n | Raise _ => false end.

Definition isfile (e : env) (t : tree) (p : pystr) : bool :=
  match stat e t p with Return n => negb (is_dir n) | Raise _ => false end.

(** [os.makedirs(name, exist_ok=True)]: the components are walked from
    left to right and every missing directory is created; a regular file
    in the way is an error ([EEXIST] at the last component, [ENOTDIR]
    before it, reported for the prefix at which [mkdir] fails). *)
Fixpoint makedirs_walk (e : env) (name : pystr) (t : tree)
    (pre cur : list pystr) (comps : list pystr) : tree * outcome unit :=
  match comps with
  | [] => (t, Return tt)
  | c :: rest =>
      if is_name c then
        let cur' := cur ++ [c] in
        match kind t cur' with
        | Some n =>
            if is_dir n then makedirs_walk e name t (pre ++ [c]) cur' rest
            else if negb (existsb is_name rest)
            then (t, Raise (os_error EEXIST name))
            else (t, Raise (os_error ENOTDIR (PyStr.join sep (pre ++ c :: take 1 rest))))
        | None =>
            makedirs_walk e name (<[cur' := Node true 4096 (now e)]> t)
              (pre ++ [c]) cur' rest
        end
      else makedirs_walk e name t (pre ++ [c]) (step cur c) rest
  end.

Definition makedirs (e : env) (name : pystr) (t : tree) : tree * outcome unit :=
  if bool_decide (name = [])
  then (t, Raise (os_error ENOENT name))
  else makedirs_walk e name t [] (start e name) (split sep name).

(** [os.listdir]: the names of the entries directly below the directory. *)
Definition children (t : tree) (q : list pystr) : list pystr :=
  omap (fun kv : list pystr * node =>
          if bool_decide (kv.1 <> [] /\ removelast kv.1 = q) then last kv.1 else None)
       (map_to_list t).

Definition listdir (e : env) (t : tree) (p : pystr) : outcome (list pystr) :=
  match resolve e t p with
  | inl n => Raise (os_error n p)
  | inr q =>
      match kind t q with
      | Some n =>
          if is_dir n then Return (children t q)
          else Raise (os_error ENOTDIR p)
      | None => Raise (os_error ENOENT p)
      end
  end.

(** [open(p, 'wb')] followed by writing [size] bytes. *)
Definition write_file (e : env) (p : pystr) (size : Z) (t : tree) : tree * outcome unit :=
  match resolve e t p with
  | inl n => (t, Raise (os_error n p))
  | inr q =>
      match kind t q with
      | Some n =>
          if is_dir n then (t, Raise (os_error EISDIR p))
          else (<[q := Node false size (now e)]> t, Return tt)
      | None => (<[q := Node false size (now e)]> t, Return tt)
      end
  end.

(** [os.remove] on an existing regular file and [shutil.rmtree] on an
    existing directory. *)
Definition remove (e : env) (p : pystr) (t : tree) : tree * outcome unit :=
  match resolve e t p with
  | inl n => (t, Raise (os_error n p))
  | inr q =>
      match kind t q with
      | Some n =>
          if is_dir n then (t, Raise (os_error EISDIR p))
          else (delete q t, Return tt)
      | None => (t, Raise (os_error ENOENT p))
      end
  end.

Definition rmtree (e : env) (p : pystr) (t : tree) : tree * outcome unit :=
  match resolve e t p with
  | inl n => (t, Raise (os_error n p))
  | inr q =>
      (filter (fun kv : list pystr * node => ~ q `prefix_of` kv.1) t, Return tt)
  end.

(** A well-formed tree: every entry has a name and sits in a directory. *)
Definition entry_ok (t : tree) (k : list pystr) : bool :=
  match last k with
  | Some c =>
      is_name c && bool_decide (sep ∉ c)
      && match kind t (removelast k) with
         | Some d => is_dir d
         | None => false
         end
  | None => false
  end.

Definition wf (t : tree) : Prop :=
  map_Forall (fun k _ => entry_ok t k = true) t.

End Fs.

Import Fs.

(** ** Operations with a file system: state and exceptions *)

Definition io (A : Type) : Type := tree -> tree * outcome A.

Definition io_ret {A} (a : A) : io A := fun t => (t, Return a).

Definition io_raise {A} (x : exn) : io A := fun t => (t, Raise x).

Definition io_bind {A B} (m : io A) (k : A -> io B) : io B :=
  fun t => match m t with
           | (t', Return a) => k a t'
           | (t', Raise x) => (t', Raise x)
           end.

Definition io_lift {A} (m : outcome A) : io A := fun t => (t, m).

Definition io_read {A} (f : tree -> A) : io A := fun t => (t, Return (f t)).

Definition io_try {A} (m : io A) (h : exn -> io A) : io A :=
  fun t => match m t with
           | (t', Return a) => (t', Return a)
           | (t', Raise x) => h x t'
           end.

Notation "'do' x <- m ; k" := (io_bind m (fun x => k))
  (at level 10, x name, m at level 100, k at level 200, only parsing).
Notation "'do_' m ; k" := (io_bind m (fun _ => k))
  (at level 10, m at level 100, k at level 200, only parsing).

(** [str(e)] for the exceptions of the model. *)
Definition str_exn (x : exn) : pystr :=
  match x with
  | HTTPException c d => of_Z c ++ lit ": " ++ d
  | OSError n s f => lit "[Errno " ++ of_Z n ++ lit "] " ++ s ++ lit ": '" ++ f ++ lit "'"
  | JWTError => []
  end.

(** ** [utils/security.py]: [get_user_directory] *)

Definition user_directory (e : env) (user_id : pystr) : pystr :=
  let base_dir := OsPath.join (cwd e) (lit "uploads") in
  OsPath.join base_dir user_id.

Definition get_user_directory (e : env) (user_id : pystr) : io pystr :=
  let user_dir := user_directory e user_id in
  do_ makedirs e user_dir;
  io_ret user_dir.

(** ** [middleware/auth.py] *)

(** Values of a claims dictionary as they appear in the token's JSON. *)
Inductive jvalue : Type :=
| JStr (s : pystr)
| JInt (n : Z).

#[global] Instance jvalue_eq_dec : EqDecision jvalue.
Proof. solve_decision. Defined.

Abbreviation claims := (gmap string jvalue).

(** The signed-token library ([jose.jwt]) is not part of the repository.
    A token string is represented by what the library reads from it: either
    nothing (a malformed string) or a payload and a signature.  The keyed
    MAC and the library's checks of the registered claims other than [exp]
    are parameters. *)
Inductive token : Type :=
| Compact (payload : claims) (signature : pystr)
| Malformed (raw : pystr).

Module Jwt.
Section Jwt.

Variable hs256 : pystr -> claims -> pystr.
Variable registered_claims_ok : Z -> claims -> bool.

(** [jwt.encode(claims, key, algorithm)] *)
Definition encode (c : claims) (key : pystr) : token :=
  Compact c (hs256 key c).

(** [jwt.decode(token, key, algorithms)] at time [now]: the signature is
    checked first, then the expiry ([exp < now] is expired), then the
    other registered claims. *)
Definition decode (now : Z) (tok : token) (key : pystr) : outcome claims :=
  match tok with
  | Malformed _ => Raise JWTError
  | Compact payload sig =>
      if negb (bool_decide (sig = hs256 key payload)) then Raise JWTError
      else
        match payload !! "exp"%string with
        | Some (JInt exp) =>
            if (exp <? now)%Z then Raise JWTError
            else if registered_claims_ok now payload then Return payload
            else Raise JWTError
        | Some (JStr _) => Raise JWTError
        | None =>
            if registered_claims_ok now payload then Return payload
            else Raise JWTError
        end
  end.

End Jwt.
End Jwt.

Definition ACCESS_TOKEN_EXPIRE_HOURS : Z := 24.

(** [timedelta(hours=h)] in seconds. *)
Definition hours (h : Z) : Z := (h * 3600)%Z.

Module AuthMiddleware.
Section AuthMiddleware.

Variable hs256 : pystr -> claims -> pystr.
Variable registered_claims_ok : Z -> claims -> bool.
Variable secret_key : pystr.

(** [create_access_token(data, expires_delta)] at time [utcnow];
    [expires_delta] is in seconds and a zero delta is falsy. *)
Definition create_access_token (utcnow : Z) (data : claims)
    (expires_delta : option Z) : token :=
  let to_encode := data in
  let expire :=
    match expires_delta with
    | Some d => if bool_decide (d <> 0%Z) then (utcnow + d)%Z
                else (utcnow + hours ACCESS_TOKEN_EXPIRE_HOURS)%Z
    | None => (utcnow + hours ACCESS_TOKEN_EXPIRE_HOURS)%Z
    end in
  let to_encode := <["exp"%string := JInt expire]> to_encode in
  Jwt.encode hs256 to_encode secret_key.

(** [verify_token(token)]: [None] is Python's [None]. *)
Definition verify_token (utcnow : Z) (tok : token) : outcome (option claims) :=
  try_except
    (payload ← Jwt.decode hs256 registered_claims_ok utcnow tok secret_key;
     Return (Some payload))
    (fun x => match x with
              | JWTError => Return None
              | _ => Raise x
              end).

Definition credentials_exception : exn :=
  HTTPException HTTP_401_UNAUTHORIZED (lit "Could not validate credentials").

(** [get_current_user(credentials)] *)
Definition get_current_user (utcnow : Z) (credentials : token) : outcome claims :=
  try_except
    (payload ← verify_token utcnow credentials;
     match payload with
     | None => Raise credentials_exception
     | Some payload =>
         match payload !! "id"%string with
         | None => Raise credentials_exception
         | Some _ => Return payload
         end
     end)
    (fun x => match x with
              | JWTError => Raise credentials_exception
              | _ => Raise x
              end).

End AuthMiddleware.
End AuthMiddleware.

(** ** [files/routes.py] *)

Record FileItem := {
  name : pystr;
  path : pystr;
  type : pystr;
  size : option Z;
  modified : Z
}.

Record FileTreeResponse := {
  tree_ : list FileItem;
  current_path : pystr
}.

Record UploadFile := {
  filename : pystr;
  body : list ascii
}.

Record UploadResponse := {
  message : pystr;
  file_name : pystr;
  file_stored_name : pystr;
  file_size : Z;
  file_path : pystr
}.

Definition ALLOWED_EXTENSIONS : list pystr :=
  map lit ["txt"; "pdf"; "png"; "jpg"; "jpeg"; "gif"; "doc"; "docx"; "ppt"; "pptx"]%string.

Definition MAX_FILE_SIZE : Z := 10 * 1024 * 1024.

(** [len(s)] *)
Definition len {A} (l : list A) : Z := Z.of_nat (length l).

(** [s.rsplit(c, 1)[1]] when [c] occurs in [s]: the text after the last
    occurrence. *)
Definition after_last (c : ascii) (s : pystr) : pystr :=
  default [] (last (split c s)).

Definition allowed_file (filename : pystr) : bool :=
  bool_decide (dot ∈ filename)
  && bool_decide (lower (after_last dot filename) ∈ ALLOWED_EXTENSIONS).

(** The two strings of the listing's sort key compare by code point. *)
Fixpoint str_le (a b : pystr) : bool :=
  match a, b with
  | [], _ => true
  | _ :: _, [] => false
  | x :: a', y :: b' =>
      if (nat_of_ascii x <? nat_of_ascii y)%nat then true
      else if (nat_of_ascii y <? nat_of_ascii x)%nat then false
      else str_le a' b'
  end.

(** The key [(x.type == "file", x.name.lower())] and the order of two keys. *)
Definition sort_key (x : FileItem) : bool * pystr :=
  (bool_decide (type x = lit "file"), lower (name x)).

Definition key_le (k1 k2 : bool * pystr) : bool :=
  match k1.1, k2.1 with
  | false, true => true
  | true, false => false
  | _, _ => str_le k1.2 k2.2
  end.

(** [list.sort(key=...)] is stable: an item is placed before the first item
    to its right whose key is not smaller. *)
Fixpoint insert_by_key (x : FileItem) (l : list FileItem) : list FileItem :=
  match l with
  | [] => [x]
  | y :: l' =>
      if key_le (sort_key x) (sort_key y) then x :: l
      else y :: insert_by_key x l'
  end.

Fixpoint sort_items (l : list FileItem) : list FileItem :=
  match l with
  | [] => []
  | x :: l' => insert_by_key x (sort_items l')
  end.

(** The body of the loop over [os.listdir(full_path)]. *)
Definition make_item (e : env) (t : tree) (path full_path item_name : pystr)
  : outcome FileItem :=
  let item_path := OsPath.join full_path item_name in
  let relative_path :=
    if bool_decide (path <> []) then OsPath.join path item_name else item_name in
  st ← stat e t item_path;
  let is_dir_ := isdir e t item_path in
  Return {| name := item_name;
            path := relative_path;
            type := if is_dir_ then lit "folder" else lit "file";
            size := if is_dir_ then None else Some (st_size st);
            modified := st_mtime st |}.

Fixpoint make_items (e : env) (t : tree) (path full_path : pystr)
    (names : list pystr) : outcome (list FileItem) :=
  match names with
  | [] => Return []
  | item_name :: rest =>
      x ← make_item e t path full_path item_name;
      xs ← make_items e t path full_path rest;
      Return (x :: xs)
  end.

Definition get_file_tree (e : env) (user_id path : pystr) : io FileTreeResponse :=
  io_try
    (do user_dir <- get_user_directory e user_id;
     do full_path <- io_lift (validate_path (cwd e) user_dir path);
     do_ makedirs e full_path;
     do names <- (fun t => (t, listdir e t full_path));
     do items <- (fun t => (t, make_items e t path full_path names));
     let items := sort_items items in
     io_ret {| tree_ := items; current_path := path |})
    (fun x =>
       io_raise (HTTPException HTTP_500_INTERNAL_SERVER_ERROR
                   (lit "Failed to read directory: " ++ str_exn x))).

(** The handler shared by the other four operations:
    [except HTTPException: raise] and then [except Exception as e]. *)
Definition reraise_http {A} (prefix_ : pystr) (x : exn) : io A :=
  match x with
  | HTTPException _ _ => io_raise x
  | _ => io_raise (HTTPException HTTP_500_INTERNAL_SERVER_ERROR
                     (prefix_ ++ str_exn x))
  end.

(** The part of [upload_file] after the two checks: the file is stored
    under a name that starts with the time stamp. *)
Definition upload_store (e : env) (user_id : pystr) (file : UploadFile) (path : pystr)
  : io UploadResponse :=
  do user_dir <- get_user_directory e user_id;
  do upload_dir <- io_lift (validate_path (cwd e) user_dir path);
  do_ makedirs e upload_dir;
  let timestamp := now e in
  let filename_ := of_Z timestamp ++ lit "_" ++ filename file in
  let file_path_ := OsPath.join upload_dir filename_ in
  let content := body file in
  do_ write_file e file_path_ (len content);
  io_ret {| message := lit "File uploaded successfully";
            file_name := filename file;
            file_stored_name := filename_;
            file_size := len content;
            file_path := if bool_decide (path <> [])
                         then OsPath.join path filename_ else filename_ |}.

Definition upload_file (e : env) (user_id : pystr) (file : UploadFile) (path : pystr)
  : io UploadResponse :=
  io_try
    (if bool_decide (filename file = []) then
       io_raise (HTTPException HTTP_400_BAD_REQUEST (lit "No file selected"))
     else if negb (allowed_file (filename file)) then
       io_raise (HTTPException HTTP_400_BAD_REQUEST (lit "File type not allowed"))
     else
       let file_content := body file in
       if (MAX_FILE_SIZE <? len file_content)%Z then
         io_raise (HTTPException HTTP_400_BAD_REQUEST
                     (lit "File size exceeds maximum limit (10MB)"))
       else upload_store e user_id file path)
    (reraise_http (lit "Upload failed: ")).

(** [os.path.basename] *)
Definition basename (p : pystr) : pystr := after_last sep p.

(** The response of a download: the file to stream and its display name. *)
Definition download_file (e : env) (user_id path : pystr) : io (pystr * pystr) :=
  io_try
    (do user_dir <- get_user_directory e user_id;
     do file_path_ <- io_lift (validate_path (cwd e) user_dir path);
     do is_file <- io_read (fun t => isfile e t file_path_);
     if negb is_file then
       io_raise (HTTPException HTTP_404_NOT_FOUND (lit "File not found"))
     else
       let filename_ := basename path in
       io_ret (file_path_, filename_))
    (reraise_http (lit "Download failed: ")).

Definition delete_file (e : env) (user_id path : pystr) : io pystr :=
  io_try
    (do user_dir <- get_user_directory e user_id;
     do file_path_ <- io_lift (validate_path (cwd e) user_dir path);
     do present <- io_read (fun t => exists_ e t file_path_);
     if negb present then
       io_raise (HTTPException HTTP_404_NOT_FOUND (lit "File or directory not found"))
     else
       do is_directory <- io_read (fun t => isdir e t file_path_);
       do_ (if is_directory then rmtree e file_path_ else remove e file_path_);
       io_ret (lit "File deleted successfully"))
    (reraise_http (lit "Delete failed: ")).

(** The response of [create_folder] is its message and the folder name. *)
Definition create_folder (e : env) (user_id name_ path : pystr) : io (pystr * pystr) :=
  io_try
    (do user_dir <- get_user_directory e user_id;
     do parent_path <- io_lift (validate_path (cwd e) user_dir path);
     let folder_path := OsPath.join parent_path name_ in
     do present <- io_read (fun t => exists_ e t folder_path);
     if present then
       io_raise (HTTPException HTTP_400_BAD_REQUEST (lit "Folder already exists"))
     else
       do_ makedirs e folder_path;
       io_ret (lit "Folder created successfully", name_))
    (reraise_http (lit "Failed to create folder: ")).

(** ** [auth/routes.py]: [google_auth] *)

(** [id_token.verify_oauth2_token] belongs to the identity provider's
    library: it returns the claims of the ID token, raises [ValueError] for
    a token it rejects, or fails with some other exception.  The text is
    [str(e)]. *)
Inductive verification : Type :=
| Verified (idinfo : claims)
| Rejected (reason : pystr)
| Broken (reason : pystr).

(** [str(KeyError(k))] *)
Definition key_error (k : string) : pystr := lit "'" ++ lit k ++ lit "'".

Module AuthRoutes.
Section AuthRoutes.

Variable verify_oauth2_token : pystr -> verification.
Variable hs256 : pystr -> claims -> pystr.
Variable secret_key : pystr.

(** [google_auth(auth_request)]: the response is the session token and the
    user data; [except ValueError] gives 401 and [except Exception] 500. *)
Definition google_auth (utcnow : Z) (token_ : pystr) : outcome (token * claims) :=
  let failed (reason : pystr) : outcome (token * claims) :=
    Raise (HTTPException HTTP_500_INTERNAL_SERVER_ERROR
             (lit "Authentication failed: " ++ reason)) in
  match verify_oauth2_token token_ with
  | Rejected reason =>
      Raise (HTTPException HTTP_401_UNAUTHORIZED
               (lit "Invalid Google token: " ++ reason))
  | Broken reason => failed reason
  | Verified idinfo =>
      match idinfo !! "sub"%string with
      | None => failed (key_error "sub")
      | Some sub =>
          match idinfo !! "email"%string with
          | None => failed (key_error "email")
          | Some email =>
              match idinfo !! "name"%string with
              | None => failed (key_error "name")
              | Some name_ =>
                  let picture := default (JStr []) (idinfo !! "picture"%string) in
                  let user_data : claims :=
                    <["id"%string := sub]>
                      (<["email"%string := email]>
                         (<["name"%string := name_]>
                            (<["picture"%string := picture]>
                               {["provider"%string := JStr (lit "google")]}))) in
                  let access_token :=
                    AuthMiddleware.create_access_token hs256 secret_key utcnow
                      user_data None in
                  Return (access_token, user_data)
              end
          end
      end
  end.

End AuthRoutes.
End AuthRoutes.

(** * Auxiliary definitions for the proofs *)

Definition head_is (c : ascii) (s : pystr) : bool :=
  match s with
  | x :: _ => bool_decide (x = c)
  | [] => false
  end.

(** No two adjacent dots. *)
Fixpoint nodd (s : pystr) : bool :=
  match s with
  | x :: t => negb (bool_decide (x = dot) && head_is dot t) && nodd t
  | [] => true
  end.

(** What [abspath] normalises: the path itself when absolute, else the
    path below the working directory. *)
Definition absolute (cwd p : pystr) : pystr :=
  if isabs p then p else OsPath.join cwd p.

Definition norm_comps (slashes : nat) (p : pystr) : list pystr :=
  fold_left (norm_step slashes) (split sep p) [].

Definition is_blank (c : pystr) : bool :=
  bool_decide (c = []) || bool_decide (c = curdir).

(** A component that [normpath] keeps on its stack for an absolute path. *)
Definition real_name (c : pystr) : Prop := is_name c = true /\ sep ∉ c.

(** What [validate_path] joins to the base. *)
Definition normalize_user_path (user_path : pystr) : pystr :=
  strip sep (replace2 sep sep [sep] (replace2 dot dot [] user_path)).

(** The payload a token carries (nothing for a malformed string). *)
Definition token_payload (tok : token) : claims :=
  match tok with
  | Compact payload _ => payload
  | Malformed _ => ∅
  end.




(** The lifetime that [create_access_token] adds to the issuance time. *)
Definition token_ttl (expires_delta : option Z) : Z :=
  match expires_delta with
  | Some d => if bool_decide (d <> 0%Z) then d else hours ACCESS_TOKEN_EXPIRE_HOURS
  | None => hours ACCESS_TOKEN_EXPIRE_HOURS
  end.

(** Stand-ins for the library's parameters in the examples: a keyed tag
    that is not a real MAC, and a check that accepts every payload. *)
Definition example_mac (key : pystr) (c : claims) : pystr :=
  key ++ of_Z (Z.of_nat (length (map_to_list c))).

Definition accept_all (utcnow : Z) (c : claims) : bool := true.

Definition example_env : env := Env (lit "/srv/app") 1700000000.

Definition example_claims : claims :=
  {[ "id"%string := JStr (lit "u1") ]}.

(** A small tree for the examples, built through the operations on empty
    storage: user [u1] uploads two files and creates two folders. *)
Definition example_tree : tree :=
  let e := example_env in
  let notes := {| filename := lit "notes.txt"; body := lit "hello world!" |} in
  let alpha := {| filename := lit "Alpha.txt"; body := lit "alpha" |} in
  let t := (upload_file e (lit "u1") notes [] ∅).1 in
  let t := (upload_file e (lit "u1") alpha [] t).1 in
  let t := (create_folder e (lit "u1") (lit "docs") [] t).1 in
  (create_folder e (lit "u1") (lit "Zeta") [] t).1.

Definition example_listing : FileTreeResponse :=
  match (get_file_tree example_env (lit "u1") [] example_tree).2 with
  | Return r => r
  | Raise _ => {| tree_ := []; current_path := [] |}
  end.







(** Every position from the root down to [cur] is a directory. *)
Definition all_dirs (t : tree) (cur : list pystr) : Prop :=
  forall q, q `prefix_of` cur -> exists d, kind t q = Some d /\ is_dir d = true.



(** The item that the loop of [get_file_tree] builds for an entry with the
    given [os.stat] result. *)
Definition item_for (path_ item_name : pystr) (st : node) : FileItem :=
  {| name := item_name;
     path := if bool_decide (path_ <> []) then OsPath.join path_ item_name
             else item_name;
     type := if is_dir st then lit "folder" else lit "file";
     size := if is_dir st then None else Some (st_size st);
     modified := st_mtime st |}.

(** The components of a user path that [validate_path] keeps, and the
    path with the given components below a root. *)
Definition kept_components (user_path : pystr) : list pystr :=
  filter (fun c => is_blank c = false) (split sep (normalize_user_path user_path)).

Definition below (root : pystr) (cs : list pystr) : pystr :=
  if bool_decide (cs = []) then root else dir_prefix root ++ PyStr.join sep cs.

#[global] Instance node_eq_dec : EqDecision node.
Proof. solve_decision. Defined.




(** A stand-in for the provider's check in the examples: the token
    [good] verifies as the user [123], every other token is rejected. *)
Definition example_verifier (token_ : pystr) : verification :=
  if bool_decide (token_ = lit "good") then
    Verified (<["sub"%string := JStr (lit "123")]>
                (<["email"%string := JStr (lit "a@example.org")]>
                   {["name"%string := JStr (lit "Ada")]}))
  else Rejected (lit "Wrong number of segments in token").

(** * Theorems *)

Lemma list_ind2 {A} (P : list A -> Prop) :
  P [] -> (forall x, P [x]) ->
  (forall x y t, P t -> P (y :: t) -> P (x :: y :: t)) ->
  forall l, P l.
Proof.
  intros H0 H1 H2.
  assert (H : forall l, P l /\ forall x, P (x :: l)).
  { induction l as [|y t [IHa IHb]]; split; auto. }
  intros l. apply H.
Qed.

Lemma startswith_spec p s : startswith p s = true <-> exists k, s = p ++ k.
Proof.
  revert s. induction p as [|a p IH]; intros s; simpl.
  - split; eauto.
  - destruct s as [|b s].
    + split; [discriminate | intros [k Hk]; discriminate].
    + rewrite andb_true_iff, bool_decide_eq_true, IH. split.
      * intros [-> [k ->]]. eauto.
      * intros [k Hk]. injection Hk as -> ->. eauto.
Qed.

Lemma startswith_app p k : startswith p (p ++ k) = true.
Proof. apply startswith_spec. eauto. Qed.

Lemma head_is_spec c s : head_is c s = true <-> exists t, s = c :: t.
Proof.
  destruct s as [|x t]; simpl.
  - split; [discriminate | intros [? ?]; discriminate].
  - rewrite bool_decide_eq_true. split.
    + intros ->. eauto.
    + intros [? H]. congruence.
Qed.

Lemma startswith_sep_head s : startswith [sep] s = head_is sep s.
Proof.
  destruct s as [|x t]; simpl; [done|].
  rewrite andb_true_r. apply bool_decide_ext. split; congruence.
Qed.

(** *** [nodd] *)

Lemma nodd_cons x t :
  nodd (x :: t) = negb (bool_decide (x = dot) && head_is dot t) && nodd t.
Proof. reflexivity. Qed.

Lemma nodd_app_r a b : nodd (a ++ b) = true -> nodd b = true.
Proof.
  induction a as [|x a IH]; simpl; [done|].
  rewrite andb_true_iff. intros [_ H]. auto.
Qed.

Lemma head_is_app c a b : a <> [] -> head_is c (a ++ b) = head_is c a.
Proof. destruct a; [done|reflexivity]. Qed.

Lemma nodd_app_l a b : nodd (a ++ b) = true -> nodd a = true.
Proof.
  induction a as [|x a IH]; simpl; [done|].
  rewrite !andb_true_iff. intros [H1 H2]. split; [|auto].
  destruct a as [|y a]; simpl in *.
  - by rewrite andb_false_r.
  - done.
Qed.

Lemma replace2_dots_head x t :
  x <> dot -> replace2 dot dot [] (x :: t) = x :: replace2 dot dot [] t.
Proof.
  intros Hx. destruct t as [|y t]; simpl; [done|].
  rewrite (bool_decide_eq_false_2 (x = dot)) by done. reflexivity.
Qed.

Lemma nodd_replace2_dots s : nodd (replace2 dot dot [] s) = true.
Proof.
  induction s as [| x | x y t IHt IHyt] using list_ind2;
    [done | simpl; by rewrite andb_false_r |].
  change (replace2 dot dot [] (x :: y :: t)) with
    (if bool_decide (x = dot) && bool_decide (y = dot)
     then [] ++ replace2 dot dot [] t
     else x :: replace2 dot dot [] (y :: t)).
  destruct (bool_decide (x = dot) && bool_decide (y = dot)) eqn:E; [done|].
  rewrite nodd_cons, IHyt, andb_true_r.
  apply negb_true_iff, andb_false_iff.
  apply andb_false_iff in E as [E|E]; [by left|].
  apply bool_decide_eq_false in E.
  right. rewrite replace2_dots_head by done. simpl.
  by apply bool_decide_eq_false.
Qed.

Lemma replace2_seps_head y t :
  exists r, replace2 sep sep [sep] (y :: t) = y :: r.
Proof.
  destruct t as [|z t]; simpl; [eauto|].
  destruct (bool_decide (y = sep) && bool_decide (z = sep)) eqn:E; [|eauto].
  apply andb_true_iff in E as [E _]. apply bool_decide_eq_true in E.
  subst. simpl. eauto.
Qed.

Lemma nodd_replace2_seps s :
  nodd s = true -> nodd (replace2 sep sep [sep] s) = true.
Proof.
  induction s as [| x | x y t IHt IHyt] using list_ind2; [done | done |].
  intros H.
  change (replace2 sep sep [sep] (x :: y :: t)) with
    (if bool_decide (x = sep) && bool_decide (y = sep)
     then [sep] ++ replace2 sep sep [sep] t
     else x :: replace2 sep sep [sep] (y :: t)).
  rewrite nodd_cons in H. apply andb_true_iff in H as [Hxy Hyt].
  destruct (bool_decide (x = sep) && bool_decide (y = sep)) eqn:E.
  - simpl. apply IHt. rewrite nodd_cons in Hyt.
    by apply andb_true_iff in Hyt as [_ ?].
  - rewrite nodd_cons, (IHyt Hyt), andb_true_r.
    destruct (replace2_seps_head y t) as [r ->]. exact Hxy.
Qed.

(** *** [lstrip], [rstrip], [strip] *)

Lemma lstrip_suffix c s : exists k, s = k ++ lstrip c s.
Proof.
  induction s as [|x t [k IH]]; simpl.
  - by exists [].
  - case_bool_decide.
    + exists (x :: k). simpl. by f_equal.
    + by exists [].
Qed.

Lemma lstrip_head c s : head_is c (lstrip c s) = false.
Proof.
  induction s as [|x t IH]; simpl; [done|].
  case_bool_decide; [done|]. simpl. by apply bool_decide_eq_false.
Qed.

Lemma rstrip_prefix c s : exists k, s = rstrip c s ++ k.
Proof.
  unfold rstrip. destruct (lstrip_suffix c (rev s)) as [k Hk].
  exists (rev k). rewrite <- rev_app_distr, <- Hk. by rewrite rev_involutive.
Qed.

Lemma head_is_prefix c a b : head_is c (a ++ b) = false -> head_is c a = false.
Proof. destruct a; done. Qed.

Lemma strip_head c s : head_is c (strip c s) = false.
Proof.
  unfold strip. destruct (rstrip_prefix c (lstrip c s)) as [k Hk].
  apply (head_is_prefix c _ k). rewrite <- Hk. apply lstrip_head.
Qed.

Lemma nodd_strip c s : nodd s = true -> nodd (strip c s) = true.
Proof.
  intros H. unfold strip.
  destruct (lstrip_suffix c s) as [k1 H1].
  destruct (rstrip_prefix c (lstrip c s)) as [k2 H2].
  rewrite H1 in H. apply nodd_app_r in H. rewrite H2 in H.
  by apply nodd_app_l in H.
Qed.

(** *** [split] and [join] on a character *)

Lemma split_nonempty c s : split c s <> [].
Proof.
  destruct s as [|x t]; simpl; [done|].
  case_bool_decide; [done|]. by destruct (split c t).
Qed.

Lemma split_cons_ne c x t :
  x <> c -> exists h r, split c t = h :: r /\ split c (x :: t) = (x :: h) :: r.
Proof.
  intros Hx. simpl. rewrite bool_decide_eq_false_2 by done.
  destruct (split c t) as [|h r] eqn:E; [by apply split_nonempty in E|].
  eauto.
Qed.

Lemma split_app_sep c a b : split c (a ++ c :: b) = split c a ++ split c b.
Proof.
  induction a as [|x a IH]; simpl.
  - by rewrite bool_decide_eq_true_2.
  - case_bool_decide; [by rewrite IH|].
    rewrite IH. destruct (split c a) as [|h r] eqn:E; [by apply split_nonempty in E|].
    reflexivity.
Qed.

Lemma split_head_prefix c s h r : split c s = h :: r -> exists b, s = h ++ b.
Proof.
  revert h r. induction s as [|x t IH]; simpl; intros h r H.
  - injection H as <- <-. by exists [].
  - case_bool_decide.
    + injection H as <- <-. eauto.
    + destruct (split c t) as [|h' r'] eqn:E; [by apply split_nonempty in E|].
      injection H as <- <-. destruct (IH _ _ eq_refl) as [b ->]. eauto.
Qed.

Lemma split_infix c s x : x ∈ split c s -> exists a b, s = a ++ x ++ b.
Proof.
  revert x. induction s as [|y t IH]; simpl; intros x Hx.
  - apply list_elem_of_singleton in Hx as ->. by exists [], [].
  - case_bool_decide.
    + apply elem_of_cons in Hx as [->|Hx]; [by exists [], (y :: t)|].
      destruct (IH _ Hx) as (a & b & ->). by exists (y :: a), b.
    + destruct (split c t) as [|h r] eqn:E; [by apply split_nonempty in E|].
      apply elem_of_cons in Hx as [->|Hx].
      * destruct (split_head_prefix _ _ _ _ E) as [b ->]. by exists [], b.
      * destruct (IH x) as (a & b & ->); [by right|]. by exists (y :: a), b.
Qed.

Lemma split_no_sep c s : Forall (fun x => c ∉ x) (split c s).
Proof.
  induction s as [|y t IH]; simpl.
  - constructor; [apply not_elem_of_nil | constructor].
  - case_bool_decide.
    + constructor; [apply not_elem_of_nil | done].
    + destruct (split c t) as [|h r].
      { constructor; [rewrite list_elem_of_singleton; congruence | constructor]. }
      apply Forall_cons in IH as [IH1 IH2]. constructor; [|done].
      rewrite elem_of_cons. intros [?|?]; congruence.
Qed.

Lemma split_not_dotdot s :
  nodd s = true -> Forall (fun c => c <> dotdot) (split sep s).
Proof.
  intros H. apply Forall_forall. intros x Hx ->.
  destruct (split_infix _ _ _ Hx) as (a & b & ->).
  apply nodd_app_r, nodd_app_l in H. discriminate.
Qed.

Lemma join_app (c : ascii) (a b : list pystr) :
  PyStr.join c (a ++ b) =
  if bool_decide (a = []) then PyStr.join c b
  else if bool_decide (b = []) then PyStr.join c a
  else PyStr.join c a ++ c :: PyStr.join c b.
Proof.
  induction a as [|x a IH]; [done|].
  rewrite bool_decide_eq_false_2 by done.
  destruct a as [|y a].
  - simpl. destruct b; done.
  - change (PyStr.join c ((x :: y :: a) ++ b)) with (x ++ c :: PyStr.join c ((y :: a) ++ b)).
    rewrite IH. rewrite (bool_decide_eq_false_2 (y :: a = [])) by done.
    change (PyStr.join c (x :: y :: a)) with (x ++ c :: PyStr.join c (y :: a)).
    destruct (bool_decide (b = [])); [reflexivity|].
    by rewrite <- app_assoc.
Qed.

Lemma split_join c (l : list pystr) :
  l <> [] -> Forall (fun x => c ∉ x) l -> split c (PyStr.join c l) = l.
Proof.
  assert (Hone : forall x : pystr, c ∉ x -> split c x = [x]).
  { induction x as [|y x IH]; intros Hx; [done|].
    simpl. rewrite bool_decide_eq_false_2 by set_solver.
    rewrite IH by set_solver. done. }
  induction l as [|x l IH]; [done|]. intros _ Hall.
  inversion Hall as [|? ? Hx Hl]; subst.
  destruct l as [|y l]; [by apply Hone|].
  change (PyStr.join c (x :: y :: l)) with (x ++ c :: PyStr.join c (y :: l)).
  rewrite split_app_sep, IH, Hone by done. done.
Qed.

(** *** [os.path.join] *)

Lemma endswith_sep_spec X : endswith [sep] X = true <-> exists X', X = X' ++ [sep].
Proof.
  unfold endswith. rewrite startswith_spec. simpl. split.
  - intros [k Hk]. exists (rev k).
    rewrite <- (rev_involutive X), Hk. reflexivity.
  - intros [X' ->]. exists (rev X'). by rewrite rev_app_distr.
Qed.

Lemma join_rel X u :
  head_is sep u = false ->
  OsPath.join X u =
  if bool_decide (X = []) || endswith [sep] X then X ++ u else X ++ sep :: u.
Proof. intros H. unfold OsPath.join. by rewrite startswith_sep_head, H. Qed.

Lemma join_rel_app X u :
  head_is sep u = false -> exists m, OsPath.join X u = X ++ m.
Proof.
  intros H. rewrite join_rel by done.
  destruct (bool_decide (X = []) || endswith [sep] X); eauto.
Qed.

Lemma endswith_app_ne c X Y : Y <> [] -> endswith [c] (X ++ Y) = endswith [c] Y.
Proof.
  intros HY. unfold endswith. rewrite rev_app_distr.
  destruct (rev Y) as [|y r] eqn:E.
  - apply (f_equal (@rev ascii)) in E. rewrite rev_involutive in E. done.
  - reflexivity.
Qed.

Lemma head_is_join X u :
  head_is sep X = false -> head_is sep u = false ->
  head_is sep (OsPath.join X u) = false.
Proof.
  intros HX Hu. rewrite join_rel by done.
  destruct X as [|x X]; simpl in *; [done|].
  by destruct (endswith [sep] (x :: X)).
Qed.

Lemma join_assoc a b c :
  head_is sep b = false -> head_is sep c = false ->
  OsPath.join (OsPath.join a b) c = OsPath.join a (OsPath.join b c).
Proof.
  intros Hb Hc.
  rewrite (join_rel a (OsPath.join b c)) by by apply head_is_join.
  rewrite (join_rel a b), (join_rel b c) by done.
  destruct b as [|y b].
  - simpl. rewrite app_nil_r.
    destruct (bool_decide (a = [])) eqn:Ea.
    + apply bool_decide_eq_true in Ea as ->. simpl.
      rewrite join_rel by done. done.
    + simpl. destruct (endswith [sep] a) eqn:Es.
      * rewrite join_rel by done. by rewrite Ea, Es.
      * rewrite join_rel by done.
        rewrite (bool_decide_eq_false_2 (a ++ [sep] = [])) by by destruct a.
        assert (endswith [sep] (a ++ [sep]) = true) as ->
          by (apply endswith_sep_spec; eauto).
        simpl. by rewrite <- app_assoc.
  - rewrite (bool_decide_eq_false_2 (y :: b = [])) by done. simpl orb.
    set (B := y :: b) in *.
    assert (HB : B <> []) by done.
    destruct (bool_decide (a = []) || endswith [sep] a) eqn:Ea.
    + rewrite join_rel by done.
      rewrite (bool_decide_eq_false_2 (a ++ B = [])) by (destruct a; done).
      rewrite endswith_app_ne by done. simpl orb.
      destruct (endswith [sep] B); by rewrite <- app_assoc.
    + rewrite join_rel by done.
      rewrite (bool_decide_eq_false_2 (a ++ sep :: B = [])) by (destruct a; done).
      rewrite (endswith_app_ne sep a (sep :: B)) by done.
      change (sep :: B) with ([sep] ++ B). rewrite endswith_app_ne by done.
      simpl orb.
      destruct (endswith [sep] B); rewrite <- app_assoc; simpl; done.
Qed.

Lemma absolute_join cwd base u :
  head_is sep u = false ->
  absolute cwd (OsPath.join base u) = OsPath.join (absolute cwd base) u.
Proof.
  intros Hu. unfold absolute, isabs. rewrite !startswith_sep_head.
  destruct (head_is sep base) eqn:Hb.
  - destruct (join_rel_app base u Hu) as [m ->].
    apply head_is_spec in Hb as [t ->]. reflexivity.
  - rewrite head_is_join by done. by rewrite join_assoc.
Qed.

Lemma absolute_isabs cwd p : isabs cwd = true -> isabs (absolute cwd p) = true.
Proof.
  intros Hc. unfold absolute. destruct (isabs p) eqn:Hp; [done|].
  unfold isabs in *. rewrite startswith_sep_head in *.
  destruct (join_rel_app cwd p Hp) as [m ->].
  apply head_is_spec in Hc as [t ->]. reflexivity.
Qed.

(** *** [os.path.normpath] *)

Lemma norm_step_blank n acc c : is_blank c = true -> norm_step n acc c = acc.
Proof. unfold norm_step, is_blank. by intros ->. Qed.

Lemma norm_step_push n acc c :
  is_blank c = false -> c <> dotdot -> norm_step n acc c = acc ++ [c].
Proof.
  unfold norm_step, is_blank. intros -> Hc.
  by rewrite (bool_decide_eq_false_2 (c = dotdot)).
Qed.

Lemma fold_norm_step_names n cs acc :
  Forall (fun c => c <> dotdot) cs ->
  fold_left (norm_step n) cs acc = acc ++ filter (fun c => is_blank c = false) cs.
Proof.
  intros H. revert acc. induction H as [|c cs Hc _ IH]; intros acc; simpl.
  - by rewrite app_nil_r.
  - rewrite IH. destruct (is_blank c) eqn:E.
    + rewrite norm_step_blank by done.
      rewrite filter_cons_False by (rewrite E; done). done.
    + rewrite norm_step_push by done.
      rewrite filter_cons_True by done. by rewrite <- app_assoc.
Qed.

Lemma norm_comps_join n X u :
  X <> [] -> head_is sep u = false ->
  Forall (fun c => c <> dotdot) (split sep u) ->
  norm_comps n (OsPath.join X u)
  = norm_comps n X ++ filter (fun c => is_blank c = false) (split sep u).
Proof.
  intros HX Hu Hdd. rewrite join_rel by done.
  rewrite (bool_decide_eq_false_2 (X = [])) by done. simpl orb.
  unfold norm_comps. destruct (endswith [sep] X) eqn:E.
  - apply endswith_sep_spec in E as [X' ->].
    rewrite <- app_assoc. simpl app. rewrite !split_app_sep, !fold_left_app.
    simpl. rewrite norm_step_blank by done.
    by apply fold_norm_step_names.
  - rewrite split_app_sep, fold_left_app. by apply fold_norm_step_names.
Qed.

Lemma initial_slashes_join X u :
  isabs X = true -> head_is sep u = false ->
  initial_slashes (OsPath.join X u) = initial_slashes X.
Proof.
  intros HX Hu. unfold isabs in HX. rewrite startswith_sep_head in HX.
  apply head_is_spec in HX as [X1 ->].
  destruct X1 as [|a [|b X3]].
  - rewrite join_rel by done. simpl.
    destruct u as [|c u]; [done|]. simpl in Hu.
    apply bool_decide_eq_false in Hu.
    unfold initial_slashes. simpl.
    rewrite (bool_decide_eq_false_2 (sep = c)) by congruence. done.
  - rewrite join_rel by done.
    destruct (decide (a = sep)) as [->|Ha].
    + simpl. destruct u as [|c u]; [done|]. simpl in Hu.
      apply bool_decide_eq_false in Hu.
      unfold initial_slashes. simpl.
      rewrite (bool_decide_eq_false_2 (sep = c)) by congruence. done.
    + assert (endswith [sep] [sep; a] = false) as ->.
      { unfold endswith. simpl. by rewrite bool_decide_eq_false_2. }
      simpl. unfold initial_slashes. simpl.
      rewrite (bool_decide_eq_false_2 (sep = a)) by done. done.
  - destruct (join_rel_app (sep :: a :: b :: X3) u Hu) as [m ->].
    reflexivity.
Qed.

Lemma initial_slashes_abs p :
  isabs p = true -> initial_slashes p = 1%nat \/ initial_slashes p = 2%nat.
Proof.
  intros H. unfold initial_slashes. unfold isabs in H. rewrite H.
  destruct (_ && _); auto.
Qed.

Lemma normpath_abs p :
  isabs p = true ->
  normpath p = replicate (initial_slashes p) sep
               ++ PyStr.join sep (norm_comps (initial_slashes p) p).
Proof.
  intros H. unfold normpath.
  rewrite bool_decide_eq_false_2 by (intros ->; discriminate).
  fold (norm_comps (initial_slashes p) p).
  destruct (initial_slashes_abs p H) as [-> | ->]; reflexivity.
Qed.

Lemma real_name_not_blank c : real_name c -> is_blank c = false.
Proof.
  intros [H _]. unfold is_name in H. apply negb_true_iff in H.
  apply orb_false_iff in H as [H _]. exact H.
Qed.

Lemma real_name_not_dotdot c : real_name c -> c <> dotdot.
Proof. intros [H _] ->. discriminate. Qed.

Lemma norm_step_names n acc c :
  n <> 0%nat -> Forall real_name acc -> sep ∉ c ->
  Forall real_name (norm_step n acc c).
Proof.
  intros Hn Hacc Hc. unfold norm_step.
  destruct (bool_decide (c = []) || bool_decide (c = curdir)) eqn:Eb; [done|].
  destruct (bool_decide (c = dotdot)) eqn:Ed; simpl.
  - rewrite (bool_decide_eq_false_2 (n = 0%nat)) by done. simpl.
    destruct (bool_decide (last acc = Some dotdot)) eqn:Hl.
    + apply bool_decide_eq_true, last_Some_elem_of in Hl.
      rewrite Forall_forall in Hacc. by destruct (Hacc _ Hl).
    + destruct acc as [|a acc _] using rev_ind; [done|].
      rewrite removelast_last. by apply Forall_app in Hacc as [? _].
  - apply Forall_app. split; [done|]. constructor; [|done].
    split; [|done]. unfold is_name. by rewrite Eb, Ed.
Qed.

Lemma norm_comps_names n p : n <> 0%nat -> Forall real_name (norm_comps n p).
Proof.
  intros Hn. unfold norm_comps.
  assert (H : forall cs acc, Forall (fun x => sep ∉ x) cs -> Forall real_name acc ->
                             Forall real_name (fold_left (norm_step n) cs acc)).
  { induction cs as [|c cs IH]; intros acc Hcs Hacc; [done|].
    apply Forall_cons in Hcs as [Hc Hcs]. simpl.
    apply IH; [done|]. by apply norm_step_names. }
  apply H; [apply split_no_sep | constructor].
Qed.

Lemma filter_names (cs : list pystr) :
  Forall real_name cs -> filter (fun c => is_blank c = false) cs = cs.
Proof.
  induction 1 as [|c cs Hc _ IH]; [done|].
  rewrite filter_cons_True by by apply real_name_not_blank. by f_equal.
Qed.

Lemma join_names_head (cs : list pystr) :
  Forall real_name cs -> head_is sep (PyStr.join sep cs) = false.
Proof.
  intros H. destruct H as [|c cs [Hc Hs] _]; [done|].
  assert (Hh : head_is sep c = false).
  { destruct c as [|x c]; [done|]. simpl. apply bool_decide_eq_false.
    intros ->. apply Hs. by left. }
  destruct cs; [done|].
  change (PyStr.join sep (c :: l :: cs)) with (c ++ sep :: PyStr.join sep (l :: cs)).
  rewrite head_is_app; [done|]. by intros ->.
Qed.

Lemma norm_comps_fixed n (cs : list pystr) :
  (1 <= n <= 2)%nat -> Forall real_name cs ->
  norm_comps n (replicate n sep ++ PyStr.join sep cs) = cs.
Proof.
  intros Hn Hcs.
  assert (Hbody : forall acc, fold_left (norm_step n) (split sep (PyStr.join sep cs)) acc
                              = acc ++ cs).
  { intros acc. destruct cs as [|c cs'] eqn:E.
    - simpl. rewrite norm_step_blank by done. by rewrite app_nil_r.
    - rewrite <- E in *. rewrite split_join.
      + rewrite fold_norm_step_names, filter_names; [done..|].
        eapply Forall_impl; [exact Hcs|]. apply real_name_not_dotdot.
      + by rewrite E.
      + eapply Forall_impl; [exact Hcs|]. by intros ? [_ ?]. }
  unfold norm_comps.
  assert (n = 1 \/ n = 2)%nat as [-> | ->] by lia; simpl;
    rewrite ?bool_decide_eq_true_2 by done; simpl;
    rewrite ?norm_step_blank by done; apply (Hbody []).
Qed.

Lemma initial_slashes_fixed n (cs : list pystr) :
  (1 <= n <= 2)%nat -> Forall real_name cs ->
  initial_slashes (replicate n sep ++ PyStr.join sep cs) = n.
Proof.
  intros Hn Hcs. pose proof (join_names_head cs Hcs) as Hh.
  assert (n = 1 \/ n = 2)%nat as [-> | ->] by lia; simpl;
    destruct (PyStr.join sep cs) as [|x r]; try reflexivity;
    simpl in Hh; unfold initial_slashes; simpl;
    rewrite ?bool_decide_eq_true_2 by done;
    apply bool_decide_eq_false in Hh;
    rewrite (bool_decide_eq_false_2 (sep = x)) by congruence; reflexivity.
Qed.

Lemma normpath_fixed n (cs : list pystr) :
  (1 <= n <= 2)%nat -> Forall real_name cs ->
  normpath (replicate n sep ++ PyStr.join sep cs)
  = replicate n sep ++ PyStr.join sep cs.
Proof.
  intros Hn Hcs. rewrite normpath_abs.
  - by rewrite initial_slashes_fixed, norm_comps_fixed.
  - assert (n = 1 \/ n = 2)%nat as [-> | ->] by lia; reflexivity.
Qed.

Lemma within_shape n (cs cu : list pystr) :
  (1 <= n <= 2)%nat ->
  is_within (replicate n sep ++ PyStr.join sep cs)
            (replicate n sep ++ PyStr.join sep (cs ++ cu)) = true.
Proof.
  intros Hn. unfold is_within. rewrite join_app.
  destruct (bool_decide (cs = [])) eqn:Ecs.
  - apply bool_decide_eq_true in Ecs as ->. simpl PyStr.join. rewrite app_nil_r.
    apply orb_true_iff. right.
    assert (dir_prefix (replicate n sep) = replicate n sep) as ->
      by (assert (n = 1 \/ n = 2)%nat as [-> | ->] by lia; reflexivity).
    apply startswith_app.
  - destruct (bool_decide (cu = [])) eqn:Ecu.
    + by rewrite bool_decide_eq_true_2.
    + apply orb_true_iff. right. apply startswith_spec.
      unfold dir_prefix. destruct (endswith [sep] _).
      * eexists. by rewrite <- app_assoc.
      * eexists. rewrite <- !app_assoc. simpl. reflexivity.
Qed.

(** *** [validate_path] *)

Lemma normalize_user_path_head u : head_is sep (normalize_user_path u) = false.
Proof. apply strip_head. Qed.

Lemma normalize_user_path_nodd u : nodd (normalize_user_path u) = true.
Proof. apply nodd_strip, nodd_replace2_seps, nodd_replace2_dots. Qed.

Lemma isabs_join X u : isabs X = true -> head_is sep u = false ->
  isabs (OsPath.join X u) = true.
Proof.
  intros HX Hu. destruct (join_rel_app X u Hu) as [m ->].
  unfold isabs in *. rewrite startswith_sep_head in *.
  apply head_is_spec in HX as [t ->]. reflexivity.
Qed.

Lemma abspath_join_comps cwd base u :
  isabs cwd = true -> head_is sep u = false ->
  Forall (fun c => c <> dotdot) (split sep u) ->
  let B := absolute cwd base in
  let n := initial_slashes B in
  let cs := norm_comps n B in
  let cu := filter (fun c => is_blank c = false) (split sep u) in
  (1 <= n <= 2)%nat /\ Forall real_name (cs ++ cu) /\
    abspath cwd base = replicate n sep ++ PyStr.join sep cs /\
    abspath cwd (OsPath.join base u) = replicate n sep ++ PyStr.join sep (cs ++ cu).
Proof.
  intros Hcwd Hu Hdd B n cs cu.
  pose proof (absolute_isabs cwd base Hcwd) as HB. fold B in HB.
  assert (Hn : (1 <= n <= 2)%nat) by (destruct (initial_slashes_abs B HB); lia).
  split; [done|]. split; [|split].
  - apply Forall_app. split; [apply norm_comps_names; lia|].
    apply Forall_forall. intros x Hx. apply list_elem_of_filter in Hx as [Hb Hx].
    split.
    + unfold is_name. unfold is_blank in Hb. rewrite Hb. simpl.
      apply negb_true_iff, bool_decide_eq_false.
      rewrite Forall_forall in Hdd. by apply Hdd.
    + pose proof (split_no_sep sep u) as Hall.
      rewrite Forall_forall in Hall. by apply Hall.
  - change (abspath cwd base) with (normpath B). by apply normpath_abs.
  - change (abspath cwd (OsPath.join base u))
      with (normpath (absolute cwd (OsPath.join base u))).
    rewrite absolute_join by done. fold B.
    rewrite normpath_abs by by apply isabs_join.
    rewrite initial_slashes_join by done. fold n.
    rewrite norm_comps_join; [done | | done | done].
    intros E. by rewrite E in HB.
Qed.

Lemma abspath_join_shape cwd base u :
  isabs cwd = true -> head_is sep u = false -> nodd u = true ->
  exists n cs cu, (1 <= n <= 2)%nat /\ Forall real_name (cs ++ cu) /\
    abspath cwd base = replicate n sep ++ PyStr.join sep cs /\
    abspath cwd (OsPath.join base u) = replicate n sep ++ PyStr.join sep (cs ++ cu).
Proof.
  intros Hcwd Hu Hdd.
  destruct (abspath_join_comps cwd base u Hcwd Hu (split_not_dotdot u Hdd))
    as (Hn & Hnames & Hb & Hr).
  eauto 10.
Qed.

Lemma abspath_fixed cwd p : isabs p = true -> normpath p = p -> abspath cwd p = p.
Proof. intros Hp Hn. unfold abspath. by rewrite Hp. Qed.

(** C1. For every working directory, root and user path, [validate_path]
    returns a path (the access-denied branch is never taken); the returned
    path, made absolute, is the absolute root or lies below it across a
    separator, and it is either the root as given (empty user path) or an
    absolute path in [normpath] normal form.  In particular the root
    [/data/user1] never yields [/data/user12]. *)
Theorem validate_path_confined cwd base_path user_path :
  isabs cwd = true ->
  exists p, validate_path cwd base_path user_path = Return p
    /\ is_within (abspath cwd base_path) (abspath cwd p) = true
    /\ (p = base_path \/ (isabs p = true /\ normpath p = p))
    /\ (base_path = lit "/data/user1" -> p <> lit "/data/user12").
Proof.
  intros Hcwd.
  assert (Hmain : exists p, validate_path cwd base_path user_path = Return p
    /\ is_within (abspath cwd base_path) (abspath cwd p) = true
    /\ (p = base_path \/ (isabs p = true /\ normpath p = p))).
  { unfold validate_path.
    case_bool_decide as Hu.
    - exists base_path. split; [done|]. split; [|by left].
      unfold is_within. by rewrite bool_decide_eq_true_2.
    - fold (normalize_user_path user_path).
      destruct (abspath_join_shape cwd base_path (normalize_user_path user_path)
                  Hcwd (normalize_user_path_head _) (normalize_user_path_nodd _))
        as (n & cs & cu & Hn & Hnames & Hbase & Hres).
      rewrite Hbase, Hres.
      assert (Hpre : startswith (replicate n sep ++ PyStr.join sep cs)
                       (replicate n sep ++ PyStr.join sep (cs ++ cu)) = true).
      { apply startswith_spec. rewrite join_app.
        destruct (bool_decide (cs = [])) eqn:E1.
        - apply bool_decide_eq_true in E1 as ->. simpl. rewrite app_nil_r. eauto.
        - destruct (bool_decide (cu = [])); [exists []; by rewrite app_nil_r|].
          eexists. by rewrite <- app_assoc. }
      rewrite Hpre. simpl.
      eexists. split; [reflexivity|].
      assert (Hfix : normpath (replicate n sep ++ PyStr.join sep (cs ++ cu))
                     = replicate n sep ++ PyStr.join sep (cs ++ cu))
        by by apply normpath_fixed.
      assert (Habs : isabs (replicate n sep ++ PyStr.join sep (cs ++ cu)) = true)
        by (assert (n = 1 \/ n = 2)%nat as [-> | ->] by lia; reflexivity).
      rewrite (abspath_fixed cwd _ Habs Hfix).
      split; [by apply within_shape | by right]. }
  destruct Hmain as (p & Hp & Hw & Hnorm). exists p.
  split; [done|]. split; [done|]. split; [done|].
  intros -> ->. by rewrite !abspath_fixed in Hw.
Qed.

Lemma validate_path_confined_witness :
  exists p, validate_path (lit "/srv/app") (lit "/srv/app/uploads/u1")
              (lit "../../etc//passwd") = Return p
    /\ is_within (abspath (lit "/srv/app") (lit "/srv/app/uploads/u1"))
                 (abspath (lit "/srv/app") p) = true
    /\ (p = lit "/srv/app/uploads/u1" \/ (isabs p = true /\ normpath p = p))
    /\ (lit "/srv/app/uploads/u1" = lit "/data/user1" -> p <> lit "/data/user12").
Proof. apply (validate_path_confined (lit "/srv/app")). reflexivity. Defined.

(** A root of [/data/user1] does not contain [/data/user12], although the
    plain [startswith] test of the code would let it through. *)
Example is_within_user1_user12 :
  is_within (lit "/data/user1") (lit "/data/user12") = false
  /\ startswith (lit "/data/user1") (lit "/data/user12") = true.
Proof. split; reflexivity. Qed.

Example validate_path_ex1 :
  validate_path (lit "/srv") (lit "/srv/uploads/u1") (lit "a/../../b//c/")
  = Return (lit "/srv/uploads/u1/a/b/c").
Proof. reflexivity. Qed.

Example validate_path_nested_dots :
  validate_path (lit "/srv") (lit "/srv/uploads/u1") (lit "....//")
  = Return (lit "/srv/uploads/u1")
  /\ validate_path (lit "/srv") (lit "/srv/uploads/u1") (lit ".../x")
     = Return (lit "/srv/uploads/u1/x").
Proof. split; reflexivity. Qed.

(** A percent-encoded traversal is not decoded: it stays an entry name
    below the root. *)
Example validate_path_encoded :
  validate_path (lit "/srv") (lit "/srv/uploads/u1") (lit "%2e%2e/%2e%2e/etc")
  = Return (lit "/srv/uploads/u1/%2e%2e/%2e%2e/etc").
Proof. reflexivity. Qed.

(** *** [get_user_directory] *)

Lemma split_one c (x : pystr) : c ∉ x -> split c x = [x].
Proof.
  induction x as [|y x IH]; intros Hx; [done|].
  simpl. rewrite bool_decide_eq_false_2 by set_solver.
  rewrite IH by set_solver. done.
Qed.

Lemma real_name_head c : real_name c -> head_is sep c = false.
Proof.
  intros [_ Hs]. destruct c as [|x c]; [done|]. simpl.
  apply bool_decide_eq_false. intros ->. apply Hs. by left.
Qed.

Lemma real_name_nonempty c : real_name c -> c <> [].
Proof. by intros [H _] ->. Qed.

Lemma real_name_endswith c : real_name c -> endswith [sep] c = false.
Proof.
  intros [_ Hs]. destruct (endswith [sep] c) eqn:E; [|done].
  apply endswith_sep_spec in E as [c' ->]. destruct Hs. set_solver.
Qed.

Lemma join_snoc (cs : list pystr) (x : pystr) :
  PyStr.join sep (cs ++ [x])
  = (if bool_decide (cs = []) then [] else PyStr.join sep cs ++ [sep]) ++ x.
Proof.
  rewrite join_app. case_bool_decide; [done|].
  rewrite bool_decide_eq_false_2 by done. simpl. by rewrite <- app_assoc.
Qed.

(** The absolute form of a user directory whose id is a plain name: the
    absolute base followed by the id. *)
Lemma user_directory_abspath e user_id :
  isabs (cwd e) = true -> real_name user_id ->
  exists P, (forall d, real_name d ->
               abspath (cwd e) (user_directory e d) = P ++ d) /\
            is_within (abspath (cwd e) (OsPath.join (cwd e) (lit "uploads")))
                      (P ++ user_id) = true.
Proof.
  intros Hcwd Hid.
  set (base := OsPath.join (cwd e) (lit "uploads")).
  set (B := absolute (cwd e) base).
  set (n := initial_slashes B).
  set (cs := norm_comps n B).
  exists (replicate n sep
          ++ (if bool_decide (cs = []) then [] else PyStr.join sep cs ++ [sep])).
  assert (Hshape : forall d, real_name d ->
            (1 <= n <= 2)%nat /\
            abspath (cwd e) base = replicate n sep ++ PyStr.join sep cs /\
            abspath (cwd e) (user_directory e d)
            = replicate n sep ++ PyStr.join sep (cs ++ [d])).
  { intros d Hd.
    assert (Hsplit : split sep d = [d]) by (apply split_one; apply Hd).
    destruct (abspath_join_comps (cwd e) base d Hcwd (real_name_head d Hd))
      as (Hn & _ & Hb & Hr).
    { rewrite Hsplit. constructor; [by apply real_name_not_dotdot | constructor]. }
    rewrite Hsplit in Hr.
    rewrite filter_cons_True in Hr by by apply real_name_not_blank.
    rewrite filter_nil in Hr. done. }
  split.
  - intros d Hd. destruct (Hshape d Hd) as (_ & _ & ->).
    by rewrite join_snoc, <- app_assoc.
  - destruct (Hshape user_id Hid) as (Hn & -> & _).
    rewrite <- app_assoc, <- join_snoc. by apply within_shape.
Qed.

Lemma is_within_sibling P (a b : pystr) :
  real_name a -> real_name b -> a <> b -> is_within (P ++ a) (P ++ b) = false.
Proof.
  intros Ha Hb Hab. unfold is_within. apply orb_false_iff. split.
  - apply bool_decide_eq_false. intros E. apply app_inv_head in E. congruence.
  - unfold dir_prefix.
    rewrite endswith_app_ne by by apply real_name_nonempty.
    rewrite real_name_endswith by done.
    destruct (startswith _ _) eqn:E; [|done].
    apply startswith_spec in E as [k Hk].
    rewrite <- !app_assoc in Hk. apply app_inv_head in Hk.
    destruct Hb as [_ Hb]. destruct Hb. rewrite Hk. set_solver.
Qed.

Lemma get_user_directory_returns e user_id t r :
  (get_user_directory e user_id t).2 = Return r -> r = user_directory e user_id.
Proof.
  unfold get_user_directory, io_bind, io_ret.
  destruct (makedirs e (user_directory e user_id) t) as [t1 [[]|x]]; simpl;
    congruence.
Qed.

(** C3 (as the code has it). [get_user_directory] joins the id to the base
    directory as it is, without sanitising it.  For two distinct ids that
    are plain names (not empty, no separator, neither [.] nor [..]) the two
    absolute directories differ, neither lies within the other, and both lie
    within the absolute base directory. *)
Theorem user_directories_disjoint e t a b ra rb :
  isabs (cwd e) = true ->
  real_name a -> real_name b -> a <> b ->
  (get_user_directory e a t).2 = Return ra ->
  (get_user_directory e b t).2 = Return rb ->
  let base := abspath (cwd e) (OsPath.join (cwd e) (lit "uploads")) in
  let ra' := abspath (cwd e) ra in
  let rb' := abspath (cwd e) rb in
  ra = OsPath.join (OsPath.join (cwd e) (lit "uploads")) a
  /\ ra' <> rb'
  /\ is_within ra' rb' = false /\ is_within rb' ra' = false
  /\ is_within base ra' = true /\ is_within base rb' = true.
Proof.
  intros Hcwd Ha Hb Hab Hra Hrb. simpl.
  apply get_user_directory_returns in Hra as ->.
  apply get_user_directory_returns in Hrb as ->.
  destruct (user_directory_abspath e a Hcwd Ha) as (P & HP & Hwa).
  destruct (user_directory_abspath e b Hcwd Hb) as (P' & HP' & Hwb).
  rewrite (HP a Ha), (HP b Hb).
  rewrite <- (HP' b Hb), (HP b Hb) in Hwb.
  split; [done|]. split.
  - intros E. apply app_inv_head in E. congruence.
  - split; [by apply is_within_sibling|]. split; [by apply is_within_sibling|].
    done.
Qed.

Lemma user_directories_disjoint_witness :
  let e := example_env in
  let ra := lit "/srv/app/uploads/user1" in
  let rb := lit "/srv/app/uploads/user12" in
  let base := abspath (cwd e) (OsPath.join (cwd e) (lit "uploads")) in
  let ra' := abspath (cwd e) ra in
  let rb' := abspath (cwd e) rb in
  ra = OsPath.join (OsPath.join (cwd e) (lit "uploads")) (lit "user1")
  /\ ra' <> rb'
  /\ is_within ra' rb' = false /\ is_within rb' ra' = false
  /\ is_within base ra' = true /\ is_within base rb' = true.
Proof.
  apply (user_directories_disjoint example_env ∅ (lit "user1") (lit "user12")).
  - reflexivity.
  - split; [reflexivity | apply (bool_decide_unpack _); vm_compute; exact I].
  - split; [reflexivity | apply (bool_decide_unpack _); vm_compute; exact I].
  - discriminate.
  - vm_compute. reflexivity.
  - vm_compute. reflexivity.
Defined.

(** C3 as stated fails: the id is used unsanitised, so the directory of
    [user1/x] lies inside the directory of [user1], and the directory of
    [../../etc] lies outside the base directory. *)
Lemma user_directory_overlap :
  let e := example_env in
  let base := abspath (cwd e) (OsPath.join (cwd e) (lit "uploads")) in
  (get_user_directory e (lit "user1") ∅).2 = Return (lit "/srv/app/uploads/user1")
  /\ (get_user_directory e (lit "user1/x") ∅).2 = Return (lit "/srv/app/uploads/user1/x")
  /\ lit "user1" <> lit "user1/x"
  /\ is_within (lit "/srv/app/uploads/user1") (lit "/srv/app/uploads/user1/x") = true
  /\ (get_user_directory e (lit "../../etc") ∅).2
     = Return (lit "/srv/app/uploads/../../etc")
  /\ abspath (cwd e) (lit "/srv/app/uploads/../../etc") = lit "/srv/etc"
  /\ is_within base (lit "/srv/etc") = false.
Proof. repeat split; try reflexivity. discriminate. Qed.

(** *** [create_folder] *)

(** C2 fails on the code: [create_folder] validates [path] but joins the
    folder name to the validated parent as it is.  For the user [u1] with
    an empty parent path, the name [/tmp/evil] creates [/tmp/evil] and the
    name [../u2] creates the directory of another user; both lie outside
    the storage root of [u1], and the call returns success. *)
Theorem create_folder_escapes :
  let e := example_env in
  let root := abspath (cwd e) (user_directory e (lit "u1")) in
  let r1 := create_folder e (lit "u1") (lit "/tmp/evil") [] ∅ in
  let r2 := create_folder e (lit "u1") (lit "../u2") [] ∅ in
  root = lit "/srv/app/uploads/u1"
  /\ r1.2 = Return (lit "Folder created successfully", lit "/tmp/evil")
  /\ isdir e r1.1 (lit "/tmp/evil") = true
  /\ isdir e ∅ (lit "/tmp/evil") = false
  /\ is_within root (lit "/tmp/evil") = false
  /\ r2.2 = Return (lit "Folder created successfully", lit "../u2")
  /\ isdir e r2.1 (lit "/srv/app/uploads/u2") = true
  /\ isdir e ∅ (lit "/srv/app/uploads/u2") = false
  /\ is_within root (lit "/srv/app/uploads/u2") = false.
Proof. repeat split; vm_compute; reflexivity. Qed.

(** *** [AuthMiddleware] *)

Section Tokens.

Variable hs256 : pystr -> claims -> pystr.
Variable registered_claims_ok : Z -> claims -> bool.
Variable secret_key : pystr.

Lemma create_access_token_payload utcnow data expires_delta :
  AuthMiddleware.create_access_token hs256 secret_key utcnow data expires_delta
  = Compact (<["exp"%string := JInt (utcnow + token_ttl expires_delta)]> data)
      (hs256 secret_key
         (<["exp"%string := JInt (utcnow + token_ttl expires_delta)]> data)).
Proof.
  unfold AuthMiddleware.create_access_token, Jwt.encode, token_ttl.
  destruct expires_delta as [d|]; [case_bool_decide|]; reflexivity.
Qed.

Lemma decode_issued utcnow later data expires_delta :
  (later <= utcnow + token_ttl expires_delta)%Z ->
  registered_claims_ok later
    (<["exp"%string := JInt (utcnow + token_ttl expires_delta)]> data) = true ->
  Jwt.decode hs256 registered_claims_ok later
    (AuthMiddleware.create_access_token hs256 secret_key utcnow data expires_delta)
    secret_key
  = Return (<["exp"%string := JInt (utcnow + token_ttl expires_delta)]> data).
Proof.
  intros Hle Hok. rewrite create_access_token_payload. unfold Jwt.decode.
  rewrite bool_decide_eq_true_2 by done. cbn [negb].
  rewrite lookup_insert_eq.
  destruct (Z.ltb_spec (utcnow + token_ttl expires_delta) later); [lia|].
  by rewrite Hok.
Qed.


End Tokens.

(** C4 (as the code has it). Every token of [create_access_token] carries
    the data it was given and one added claim, [exp]; no issuance time is
    added.  [exp] is the issuance time plus 24 hours when no (or a zero)
    [expires_delta] is passed, and the issuance time plus [expires_delta]
    otherwise. *)
Theorem token_expiry hs256 secret_key utcnow data expires_delta :
  let tok := AuthMiddleware.create_access_token hs256 secret_key utcnow data
               expires_delta in
  let ttl := match expires_delta with
             | Some d => if bool_decide (d <> 0%Z) then d else (24 * 3600)%Z
             | None => (24 * 3600)%Z
             end in
  (exists sig, tok = Compact (token_payload tok) sig)
  /\ token_payload tok !! "exp"%string = Some (JInt (utcnow + ttl))
  /\ (forall k, k <> "exp"%string -> token_payload tok !! k = data !! k).
Proof.
  intros tok ttl. subst tok. rewrite create_access_token_payload.
  assert (token_ttl expires_delta = ttl) as ->
    by (destruct expires_delta as [d|]; [unfold token_ttl; case_bool_decide|];
        reflexivity).
  cbn [token_payload]. split; [eauto|]. split.
  - by rewrite lookup_insert_eq.
  - intros k Hk. by rewrite lookup_insert_ne.
Qed.

(** C4 as stated fails: the token of the claims [{id: u1}] issued at time
    1000 has no [iat] claim, and with [expires_delta] of 60 seconds its
    [exp] is 1060, not 1000 plus 24 hours. *)
Lemma token_without_iat :
  let issue := AuthMiddleware.create_access_token example_mac (lit "k") 1000
                 example_claims in
  token_payload (issue None) !! "iat"%string = None
  /\ token_payload (issue None) !! "exp"%string = Some (JInt 87400)
  /\ token_payload (issue (Some 60%Z)) !! "exp"%string = Some (JInt 1060)
  /\ (1000 + hours ACCESS_TOKEN_EXPIRE_HOURS)%Z = 87400%Z.
Proof. repeat split; reflexivity. Qed.

(** C5 (as the code has it). Verifying a token of [create_access_token]
    no later than its expiry returns the claims it was issued for with the
    [exp] claim added (replacing an [exp] of the caller), provided the
    library accepts the other registered claims of the payload. *)
Theorem verify_issued hs256 registered_claims_ok secret_key
    utcnow later data expires_delta :
  let exp := (utcnow + token_ttl expires_delta)%Z in
  (later <= exp)%Z ->
  registered_claims_ok later (<["exp"%string := JInt exp]> data) = true ->
  AuthMiddleware.verify_token hs256 registered_claims_ok secret_key later
    (AuthMiddleware.create_access_token hs256 secret_key utcnow data expires_delta)
  = Return (Some (<["exp"%string := JInt exp]> data)).
Proof.
  intros exp Hle Hok. unfold AuthMiddleware.verify_token.
  by rewrite decode_issued.
Qed.

Lemma verify_issued_witness :
  AuthMiddleware.verify_token example_mac accept_all (lit "k") 2000
    (AuthMiddleware.create_access_token example_mac (lit "k") 1000
       example_claims None)
  = Return (Some (<["exp"%string := JInt (1000 + token_ttl None)]> example_claims)).
Proof.
  apply (verify_issued example_mac accept_all (lit "k") 1000 2000
           example_claims None).
  - vm_compute. discriminate.
  - reflexivity.
Defined.

(** C5 as stated fails: what comes back for the claims [{id: u1}] has the
    extra field [exp] and so is not the claims that went in. *)
Lemma verify_adds_exp :
  let issued := AuthMiddleware.create_access_token example_mac (lit "k") 1000
                  example_claims None in
  let back := <["exp"%string := JInt 87400]> example_claims in
  AuthMiddleware.verify_token example_mac accept_all (lit "k") 1000 issued
  = Return (Some back)
  /\ back !! "exp"%string = Some (JInt 87400)
  /\ example_claims !! "exp"%string = None
  /\ back <> example_claims.
Proof.
  repeat split; try reflexivity.
  intros E. apply (f_equal (fun m : claims => m !! "exp"%string)) in E.
  discriminate.
Qed.



(** The other two ways of refusal, on concrete tokens. *)
Example refuses_malformed_and_forged :
  AuthMiddleware.verify_token example_mac accept_all (lit "k") 1000
    (Malformed (lit "not.a.token")) = Return None
  /\ AuthMiddleware.verify_token example_mac accept_all (lit "k") 1000
       (Compact example_claims (lit "forged")) = Return None
  /\ AuthMiddleware.get_current_user example_mac accept_all (lit "k") 1000
       (Malformed (lit "not.a.token"))
     = AuthMiddleware.get_current_user example_mac accept_all (lit "k") 1000
       (Compact example_claims (lit "forged")).
Proof. repeat split; reflexivity. Qed.

(** *** [upload_file] *)

Lemma allowed_file_nonempty f : allowed_file f = true -> f <> [].
Proof. intros H ->. discriminate. Qed.

Lemma upload_full_size_stored (content : list ascii) :
  len content = MAX_FILE_SIZE ->
  (upload_file example_env (lit "u1")
     {| filename := lit "report.pdf"; body := content |} [] ∅).2
  = Return {| message := lit "File uploaded successfully";
              file_name := lit "report.pdf";
              file_stored_name := lit "1700000000_report.pdf";
              file_size := MAX_FILE_SIZE;
              file_path := lit "1700000000_report.pdf" |}.
Proof.
  intros H. unfold upload_file, io_try. cbn [filename body].
  rewrite bool_decide_eq_false_2 by discriminate.
  assert (allowed_file (lit "report.pdf") = true) as -> by reflexivity.
  cbn [negb]. rewrite H.
  assert ((MAX_FILE_SIZE <? MAX_FILE_SIZE)%Z = false) as -> by reflexivity.
  unfold upload_store, io_bind, io_ret, io_lift. cbn [filename body].
  rewrite H. reflexivity.
Qed.

(** C7. A file named [payload.exe] is refused as a disallowed type, a body
    of [MAX_FILE_SIZE + 1] bytes is refused as too large, and a body of
    exactly [MAX_FILE_SIZE] bytes (10 MiB) passes both checks and is handed
    to the storing part; on fresh storage it is stored and the response
    reports its size. *)
Theorem upload_limits e user_id path_ t (exe big small : UploadFile) :
  filename exe = lit "payload.exe" ->
  allowed_file (filename big) = true ->
  len (body big) = (MAX_FILE_SIZE + 1)%Z ->
  allowed_file (filename small) = true ->
  len (body small) = MAX_FILE_SIZE ->
  MAX_FILE_SIZE = (10 * 1024 * 1024)%Z
  /\ upload_file e user_id exe path_ t
     = (t, Raise (HTTPException HTTP_400_BAD_REQUEST (lit "File type not allowed")))
  /\ upload_file e user_id big path_ t
     = (t, Raise (HTTPException HTTP_400_BAD_REQUEST
                    (lit "File size exceeds maximum limit (10MB)")))
  /\ upload_file e user_id small path_ t
     = io_try (upload_store e user_id small path_)
         (reraise_http (lit "Upload failed: ")) t
  /\ (upload_file example_env (lit "u1")
        {| filename := lit "report.pdf"; body := body small |} [] ∅).2
     = Return {| message := lit "File uploaded successfully";
                 file_name := lit "report.pdf";
                 file_stored_name := lit "1700000000_report.pdf";
                 file_size := MAX_FILE_SIZE;
                 file_path := lit "1700000000_report.pdf" |}.
Proof.
  intros Hexe Hbig Hbigsize Hsmall Hsmallsize.
  split; [reflexivity|]. split; [|split; [|split]].
  - unfold upload_file, io_try. rewrite Hexe. reflexivity.
  - unfold upload_file, io_try.
    rewrite bool_decide_eq_false_2 by by apply allowed_file_nonempty.
    rewrite Hbig. cbn [negb]. rewrite Hbigsize.
    assert ((MAX_FILE_SIZE <? MAX_FILE_SIZE + 1)%Z = true) as -> by reflexivity.
    reflexivity.
  - unfold upload_file, io_try.
    rewrite bool_decide_eq_false_2 by by apply allowed_file_nonempty.
    rewrite Hsmall. cbn [negb]. rewrite Hsmallsize.
    assert ((MAX_FILE_SIZE <? MAX_FILE_SIZE)%Z = false) as -> by reflexivity.
    reflexivity.
  - by apply upload_full_size_stored.
Qed.

Lemma len_replicate (n : Z) (c : ascii) :
  (0 <= n)%Z -> len (replicate (Z.to_nat n) c) = n.
Proof. intros H. unfold len. rewrite length_replicate. by apply Z2Nat.id. Qed.

Lemma upload_limits_witness :
  let e := example_env in
  let exe := {| filename := lit "payload.exe"; body := lit "MZ" |} in
  let big := {| filename := lit "a.txt";
                body := replicate (Z.to_nat (MAX_FILE_SIZE + 1)) "x"%char |} in
  let small := {| filename := lit "a.txt";
                  body := replicate (Z.to_nat MAX_FILE_SIZE) "x"%char |} in
  MAX_FILE_SIZE = (10 * 1024 * 1024)%Z
  /\ upload_file e (lit "u1") exe [] ∅
     = (∅, Raise (HTTPException HTTP_400_BAD_REQUEST (lit "File type not allowed")))
  /\ upload_file e (lit "u1") big [] ∅
     = (∅, Raise (HTTPException HTTP_400_BAD_REQUEST
                    (lit "File size exceeds maximum limit (10MB)")))
  /\ upload_file e (lit "u1") small [] ∅
     = io_try (upload_store e (lit "u1") small [])
         (reraise_http (lit "Upload failed: ")) ∅
  /\ (upload_file example_env (lit "u1")
        {| filename := lit "report.pdf"; body := body small |} [] ∅).2
     = Return {| message := lit "File uploaded successfully";
                 file_name := lit "report.pdf";
                 file_stored_name := lit "1700000000_report.pdf";
                 file_size := MAX_FILE_SIZE;
                 file_path := lit "1700000000_report.pdf" |}.
Proof.
  intros e exe big small.
  apply (upload_limits e (lit "u1") [] ∅ exe big small).
  - reflexivity.
  - reflexivity.
  - apply len_replicate. unfold MAX_FILE_SIZE. lia.
  - reflexivity.
  - apply len_replicate. unfold MAX_FILE_SIZE. lia.
Defined.

(** *** The order of a listing *)






Lemma insert_by_key_elem x l z : z ∈ insert_by_key x l <-> z = x \/ z ∈ l.
Proof.
  induction l as [|y l IH]; simpl.
  - rewrite list_elem_of_singleton, elem_of_nil. tauto.
  - destruct (key_le (sort_key x) (sort_key y)).
    + by rewrite elem_of_cons.
    + rewrite !elem_of_cons, IH. tauto.
Qed.



Lemma sort_items_elem l z : z ∈ sort_items l <-> z ∈ l.
Proof.
  induction l as [|x l IH]; simpl; [done|].
  rewrite insert_by_key_elem, elem_of_cons, IH. done.
Qed.

Lemma sort_items_perm l : Permutation (sort_items l) l.
Proof.
  assert (Hins : forall x l, Permutation (insert_by_key x l) (x :: l)).
  { intros x l'. induction l' as [|y l' IH]; simpl; [done|].
    destruct (key_le _ _); [done|]. rewrite IH. apply perm_swap. }
  induction l as [|x l IH]; simpl; [done|]. by rewrite Hins, IH.
Qed.






Example example_listing_names :
  map (fun x => (name x, type x)) (tree_ example_listing)
  = [(lit "docs", lit "folder"); (lit "Zeta", lit "folder");
     (lit "1700000000_Alpha.txt", lit "file");
     (lit "1700000000_notes.txt", lit "file")].
Proof. vm_compute. reflexivity. Qed.


(** *** Error messages *)



















(** *** Listing a directory that does not exist yet *)

Lemma step_name cur c : is_name c = true -> step cur c = cur ++ [c].
Proof.
  unfold is_name, step. intros H. apply negb_true_iff in H.
  apply orb_false_iff in H as [H1 H2]. by rewrite H1, H2.
Qed.

Lemma step_not_name cur c :
  is_name c = false -> step cur c = cur \/ step cur c = removelast cur.
Proof.
  unfold is_name, step. intros H. apply negb_false_iff in H.
  destruct (bool_decide (c = []) || bool_decide (c = curdir)); [by left|].
  simpl in H. rewrite H. by right.
Qed.

Lemma prefix_snoc (q cur : list pystr) c :
  q `prefix_of` cur ++ [c] -> q = cur ++ [c] \/ q `prefix_of` cur.
Proof.
  intros [k Hk]. destruct k as [|x k _] using rev_ind.
  - left. by rewrite app_nil_r in Hk.
  - right. rewrite app_assoc in Hk. apply app_inj_tail in Hk as [-> _].
    by apply prefix_app_r.
Qed.

Lemma prefix_removelast (q cur : list pystr) :
  q `prefix_of` removelast cur -> q `prefix_of` cur.
Proof.
  destruct cur as [|x cur _] using rev_ind; [done|].
  rewrite removelast_last. by apply prefix_app_r.
Qed.

Lemma kind_snoc t cur c : kind t (cur ++ [c]) = t !! (cur ++ [c]).
Proof. unfold kind. rewrite bool_decide_eq_false_2; [done|]. by destruct cur. Qed.

Lemma kind_mono (t t' : tree) q d : t ⊆ t' -> kind t q = Some d -> kind t' q = Some d.
Proof.
  intros Hsub. unfold kind. case_bool_decide; [done|].
  intros Hq. by eapply lookup_weaken.
Qed.

Lemma all_dirs_mono (t t' : tree) cur : t ⊆ t' -> all_dirs t cur -> all_dirs t' cur.
Proof.
  intros Hsub Hcur q Hq. destruct (Hcur q Hq) as (d & Hd & Hdir).
  exists d. split; [by eapply kind_mono|done].
Qed.

Lemma all_dirs_root t : all_dirs t [].
Proof.
  intros q Hq. apply prefix_nil_inv in Hq as ->. by exists root_node.
Qed.

Lemma all_dirs_step_not_name t cur c :
  is_name c = false -> all_dirs t cur -> all_dirs t (step cur c).
Proof.
  intros Hc Hcur. destruct (step_not_name cur c Hc) as [-> | ->]; [done|].
  intros q Hq. apply Hcur. by apply prefix_removelast.
Qed.

Lemma all_dirs_snoc t cur c d :
  all_dirs t cur -> kind t (cur ++ [c]) = Some d -> is_dir d = true ->
  all_dirs t (cur ++ [c]).
Proof.
  intros Hcur Hk Hd q Hq. apply prefix_snoc in Hq as [-> | Hq]; eauto.
Qed.

Lemma all_dirs_here t cur :
  all_dirs t cur -> exists d, kind t cur = Some d /\ is_dir d = true.
Proof. intros H. by apply H. Qed.

(** A successful [makedirs] only adds entries; afterwards the whole path
    resolves to a directory. *)
Lemma makedirs_walk_ok e name_ comps : forall t pre cur t',
  all_dirs t cur ->
  makedirs_walk e name_ t pre cur comps = (t', Return tt) ->
  t ⊆ t' /\ all_dirs t' (fold_left step comps cur)
  /\ walk t' cur comps = inr (fold_left step comps cur).
Proof.
  induction comps as [|c rest IH]; intros t pre cur t' Hcur Hrun.
  - simpl in Hrun. injection Hrun as <-. done.
  - simpl in Hrun. simpl fold_left.
    assert (Hwalk : forall t0, t0 ⊆ t' ->
              all_dirs t0 cur ->
              walk t' (step cur c) rest = inr (fold_left step rest (step cur c)) ->
              walk t' cur (c :: rest) = inr (fold_left step rest (step cur c))).
    { intros t0 Hsub H0 Hw. simpl.
      destruct (all_dirs_here _ _ (all_dirs_mono _ _ _ Hsub H0)) as (d & -> & ->).
      exact Hw. }
    destruct (is_name c) eqn:Hc.
    + rewrite (step_name cur c Hc) in *.
      destruct (kind t (cur ++ [c])) as [n|] eqn:Hk.
      * destruct (is_dir n) eqn:Hn.
        -- destruct (IH _ _ _ _ (all_dirs_snoc _ _ _ _ Hcur Hk Hn) Hrun)
             as (Hsub & Hfin & Hw).
           split; [done|]. split; [done|]. by apply (Hwalk t).
        -- by destruct (negb (existsb is_name rest)).
      * set (t1 := <[cur ++ [c] := Node true 4096 (now e)]> t) in *.
        assert (Hsub1 : t ⊆ t1).
        { apply insert_subseteq. by rewrite <- kind_snoc. }
        assert (Hcur1 : all_dirs t1 (cur ++ [c])).
        { apply (all_dirs_snoc _ _ _ (Node true 4096 (now e)));
            [by eapply all_dirs_mono | | done].
          rewrite kind_snoc. apply lookup_insert_eq. }
        destruct (IH _ _ _ _ Hcur1 Hrun) as (Hsub & Hfin & Hw).
        split; [by etrans|]. split; [done|].
        apply (Hwalk t); [by etrans | done | done].
    + destruct (IH _ _ _ _ (all_dirs_step_not_name _ _ _ Hc Hcur) Hrun)
        as (Hsub & Hfin & Hw).
      split; [done|]. split; [done|]. by apply (Hwalk t).
Qed.








(** The components of a normalised absolute path hold no [..]. *)
Lemma split_normal n (cs : list pystr) :
  (1 <= n <= 2)%nat -> Forall real_name cs ->
  Forall (fun c => c <> dotdot) (split sep (replicate n sep ++ PyStr.join sep cs)).
Proof.
  intros Hn Hcs.
  assert (Hbody : Forall (fun c => c <> dotdot) (split sep (PyStr.join sep cs))).
  { destruct cs as [|c cs'] eqn:E; [by repeat constructor|].
    rewrite <- E in *. rewrite split_join.
    - eapply Forall_impl; [exact Hcs|]. apply real_name_not_dotdot.
    - by rewrite E.
    - eapply Forall_impl; [exact Hcs|]. by intros ? [_ ?]. }
  assert (n = 1 \/ n = 2)%nat as [-> | ->] by lia; simpl;
    rewrite ?bool_decide_eq_true_2 by done; by repeat constructor.
Qed.

Lemma validate_path_normal cwd_ base u p :
  isabs cwd_ = true -> u <> [] -> validate_path cwd_ base u = Return p ->
  isabs p = true /\ Forall (fun c => c <> dotdot) (split sep p).
Proof.
  intros Hcwd Hu. unfold validate_path.
  rewrite bool_decide_eq_false_2 by done.
  fold (normalize_user_path u).
  destruct (abspath_join_shape cwd_ base (normalize_user_path u) Hcwd
              (normalize_user_path_head _) (normalize_user_path_nodd _))
    as (n & cs & cu & Hn & Hnames & Hbase & Hres).
  destruct (negb _); [discriminate|]. intros H. injection H as <-.
  rewrite Hres. split.
  - assert (n = 1 \/ n = 2)%nat as [-> | ->] by lia; reflexivity.
  - by apply split_normal.
Qed.

Lemma makedirs_exists e name_ t t' :
  isabs name_ = true ->
  makedirs e name_ t = (t', Return tt) ->
  t ⊆ t' /\ exists q, resolve e t' name_ = inr q /\ all_dirs t' q
            /\ q = fold_left step (split sep name_) [].
Proof.
  intros Habs. unfold makedirs, resolve, start. rewrite Habs.
  case_bool_decide; [discriminate|]. intros Hrun.
  destruct (makedirs_walk_ok _ _ _ _ _ _ _ (all_dirs_root t) Hrun)
    as (Hsub & Hfin & Hw).
  split; [done|]. eauto.
Qed.

Lemma user_directory_isabs e user_id :
  isabs (cwd e) = true -> isabs (user_directory e user_id) = true.
Proof.
  intros Hcwd. unfold user_directory, OsPath.join at 1.
  destruct (startswith [sep] user_id) eqn:E; [done|].
  assert (Hb : isabs (OsPath.join (cwd e) (lit "uploads")) = true)
    by by apply isabs_join.
  unfold isabs in Hb. apply startswith_spec in Hb as [k Hk]. rewrite Hk.
  by destruct (_ || _).
Qed.

(** *** Well-formed trees are preserved by [makedirs] *)

Lemma wf_empty : wf ∅.
Proof. intros k n Hk. by rewrite lookup_empty in Hk. Qed.







Lemma get_user_directory_inv e user_id t t1 user_dir :
  get_user_directory e user_id t = (t1, Return user_dir) ->
  makedirs e (user_directory e user_id) t = (t1, Return tt)
  /\ user_dir = user_directory e user_id.
Proof.
  unfold get_user_directory, io_bind, io_ret.
  destruct (makedirs e (user_directory e user_id) t) as [t' [[]|x]];
    intros H; by simplify_eq.
Qed.






(** * Further properties of the code *)

(** ** Further properties of the session tokens *)





(** ** Further properties of [allowed_file] and [upload_file] *)

Lemma after_last_app c stem (ext : pystr) :
  c ∉ ext -> after_last c (stem ++ c :: ext) = ext.
Proof.
  intros Hext. unfold after_last.
  rewrite split_app_sep, (split_one c ext Hext), last_snoc. done.
Qed.

Lemma after_last_none c (s : pystr) : c ∉ s -> after_last c s = s.
Proof. intros H. unfold after_last. by rewrite split_one. Qed.

(** Only the text after the last dot decides, compared without regard to
    case; a name without a dot is never allowed. *)
Theorem allowed_file_last_extension stem ext :
  dot ∉ ext ->
  allowed_file (stem ++ dot :: ext)
  = bool_decide (lower ext ∈ ALLOWED_EXTENSIONS)
  /\ allowed_file ext = false.
Proof.
  intros Hext. split.
  - unfold allowed_file. rewrite after_last_app by done.
    rewrite bool_decide_eq_true_2; [done|]. set_solver.
  - unfold allowed_file. by rewrite bool_decide_eq_false_2.
Qed.

Lemma allowed_file_last_extension_witness :
  allowed_file (lit "shell.php" ++ dot :: lit "TXT")
  = bool_decide (lower (lit "TXT") ∈ ALLOWED_EXTENSIONS)
  /\ allowed_file (lit "TXT") = false.
Proof.
  apply (allowed_file_last_extension (lit "shell.php") (lit "TXT")).
  apply (bool_decide_unpack _). vm_compute. exact I.
Defined.

(** The three checks of [upload_file] come first and in this order: empty
    name, type, size.  A request that fails one of them is answered with
    status 400 and the storage is left as it was (not even the directory
    of the user is created). *)
Theorem upload_rejected_untouched e user_id file path_ t :
  filename file = [] \/ allowed_file (filename file) = false
  \/ (MAX_FILE_SIZE < len (body file))%Z ->
  upload_file e user_id file path_ t
  = (t, Raise (HTTPException HTTP_400_BAD_REQUEST
                 (if bool_decide (filename file = []) then lit "No file selected"
                  else if allowed_file (filename file)
                       then lit "File size exceeds maximum limit (10MB)"
                       else lit "File type not allowed"))).
Proof.
  intros H. unfold upload_file, io_try.
  case_bool_decide as Hname; [done|].
  destruct (allowed_file (filename file)) eqn:Ha; [|done].
  destruct H as [H | [H | H]]; [done..|].
  cbn [negb]. by rewrite (proj2 (Z.ltb_lt _ _) H).
Qed.

Lemma upload_rejected_untouched_witness :
  let file := {| filename := lit "run.sh"; body := lit "#!/bin/sh" |} in
  upload_file example_env (lit "u1") file (lit "docs") ∅
  = (∅, Raise (HTTPException HTTP_400_BAD_REQUEST
                 (if bool_decide (filename file = []) then lit "No file selected"
                  else if allowed_file (filename file)
                       then lit "File size exceeds maximum limit (10MB)"
                       else lit "File type not allowed"))).
Proof.
  intros file.
  apply (upload_rejected_untouched example_env (lit "u1") file (lit "docs") ∅).
  right. left. reflexivity.
Defined.

(** ** Further properties of the storage operations *)

Lemma makedirs_walk_grows e name_ comps : forall t pre cur,
  t ⊆ (makedirs_walk e name_ t pre cur comps).1.
Proof.
  induction comps as [|c rest IH]; intros t pre cur; [done|]. simpl.
  destruct (is_name c); [|apply IH].
  destruct (kind t (cur ++ [c])) as [n|] eqn:Hk.
  - destruct (is_dir n); [apply IH|].
    by destruct (negb (existsb is_name rest)).
  - etrans; [|apply IH]. apply insert_subseteq. by rewrite <- kind_snoc.
Qed.

Lemma makedirs_grows e name_ t : t ⊆ (makedirs e name_ t).1.
Proof. unfold makedirs. case_bool_decide; [done|]. apply makedirs_walk_grows. Qed.


Lemma walk_mono (t t' : tree) comps : forall cur q,
  t ⊆ t' -> walk t cur comps = inr q -> walk t' cur comps = inr q.
Proof.
  induction comps as [|c rest IH]; intros cur q Hsub; [done|]. simpl.
  destruct (kind t cur) as [n|] eqn:Hk; [|done].
  rewrite (kind_mono _ _ _ _ Hsub Hk).
  destruct (is_dir n); [by apply IH | done].
Qed.

Lemma walk_start_dir t comps cur q d :
  walk t cur comps = inr q -> kind t q = Some d -> is_dir d = true ->
  exists d', kind t cur = Some d' /\ is_dir d' = true.
Proof.
  destruct comps as [|c rest]; simpl.
  - intros H. injection H as <-. eauto.
  - destruct (kind t cur) as [n|]; [|done].
    destruct (is_dir n) eqn:Hn; [eauto | done].
Qed.

(** On a tree in which the path resolves to a directory, [makedirs]
    changes nothing. *)
Lemma makedirs_walk_again e name_ comps : forall t pre cur q d,
  walk t cur comps = inr q -> kind t q = Some d -> is_dir d = true ->
  makedirs_walk e name_ t pre cur comps = (t, Return tt).
Proof.
  induction comps as [|c rest IH]; intros t pre cur q d Hw Hq Hd; [done|].
  simpl in Hw. simpl.
  destruct (kind t cur) as [n|]; [|done].
  destruct (is_dir n); [|done].
  destruct (is_name c) eqn:Hc.
  - rewrite (step_name cur c Hc) in Hw.
    destruct (walk_start_dir _ _ _ _ _ Hw Hq Hd) as (d' & -> & ->).
    by eapply IH.
  - by eapply IH.
Qed.

Lemma makedirs_again e name_ t t' t2 :
  isabs name_ = true -> makedirs e name_ t = (t', Return tt) -> t' ⊆ t2 ->
  makedirs e name_ t2 = (t2, Return tt).
Proof.
  intros Habs Hrun Hsub.
  destruct (makedirs_exists _ _ _ _ Habs Hrun) as (_ & q & Hq & Hall & _).
  destruct (all_dirs_here _ _ Hall) as (d & Hk & Hd).
  unfold resolve in Hq. unfold makedirs.
  destruct (bool_decide (name_ = [])); [done|].
  eapply makedirs_walk_again;
    [by eapply walk_mono | by eapply kind_mono | done].
Qed.

Lemma makedirs_isdir e name_ t t' t2 :
  isabs name_ = true -> makedirs e name_ t = (t', Return tt) -> t' ⊆ t2 ->
  isdir e t2 name_ = true.
Proof.
  intros Habs Hrun Hsub.
  destruct (makedirs_exists _ _ _ _ Habs Hrun) as (_ & q & Hq & Hall & _).
  destruct (all_dirs_here _ _ Hall) as (d & Hk & Hd).
  unfold isdir, stat, resolve in *.
  destruct (bool_decide (name_ = [])); [done|].
  by rewrite (walk_mono _ _ _ _ _ Hsub Hq), (kind_mono _ _ _ _ Hsub Hk).
Qed.

Lemma get_user_directory_again e user_id t t1 user_dir t2 :
  isabs (cwd e) = true ->
  get_user_directory e user_id t = (t1, Return user_dir) -> t1 ⊆ t2 ->
  get_user_directory e user_id t2 = (t2, Return user_dir).
Proof.
  intros Hcwd Hrun Hsub.
  destruct (get_user_directory_inv _ _ _ _ _ Hrun) as (Hmk & ->).
  unfold get_user_directory, io_bind, io_ret.
  by rewrite (makedirs_again _ _ _ _ _ (user_directory_isabs e user_id Hcwd) Hmk Hsub).
Qed.



(** *** What [validate_path] returns *)

Lemma validate_path_value cwd_ base u :
  isabs cwd_ = true -> u <> [] ->
  validate_path cwd_ base u
  = Return (abspath cwd_ (OsPath.join base (normalize_user_path u))).
Proof.
  intros Hcwd Hu. unfold validate_path.
  rewrite bool_decide_eq_false_2 by done.
  fold (normalize_user_path u).
  destruct (abspath_join_shape cwd_ base (normalize_user_path u) Hcwd
              (normalize_user_path_head _) (normalize_user_path_nodd _))
    as (n & cs & cu & Hn & Hnames & Hbase & Hres).
  rewrite Hbase, Hres.
  assert (startswith (replicate n sep ++ PyStr.join sep cs)
            (replicate n sep ++ PyStr.join sep (cs ++ cu)) = true) as ->; [|done].
  apply startswith_spec. rewrite join_app.
  destruct (bool_decide (cs = [])) eqn:E1.
  - apply bool_decide_eq_true in E1 as ->. simpl. rewrite app_nil_r. eauto.
  - destruct (bool_decide (cu = [])); [exists []; by rewrite app_nil_r|].
    eexists. by rewrite <- app_assoc.
Qed.

Lemma validate_path_total cwd_ base u :
  isabs cwd_ = true -> exists p, validate_path cwd_ base u = Return p.
Proof.
  intros Hcwd. destruct (decide (u = [])) as [->|Hu].
  - by exists base.
  - eexists. by apply validate_path_value.
Qed.

Lemma validate_path_isabs cwd_ base u p :
  isabs cwd_ = true -> isabs base = true ->
  validate_path cwd_ base u = Return p -> isabs p = true.
Proof.
  intros Hcwd Hbase Hp. destruct (decide (u = [])) as [->|Hu].
  - injection Hp as <-. done.
  - by destruct (validate_path_normal _ _ _ _ Hcwd Hu Hp).
Qed.

Lemma isabs_join_any X u : isabs X = true -> isabs (OsPath.join X u) = true.
Proof.
  intros HX. unfold OsPath.join.
  destruct (startswith [sep] u) eqn:E; [done|].
  unfold isabs in HX. apply startswith_spec in HX as [k ->].
  by destruct (_ || _).
Qed.

(** *** [create_folder] *)

(** A successful [create_folder] leaves the folder behind as a directory,
    and the same request again is refused with "Folder already exists"
    without changing the storage. *)
Theorem create_folder_twice e user_id name_ path_ t r :
  let t' := (create_folder e user_id name_ path_ t).1 in
  isabs (cwd e) = true ->
  (create_folder e user_id name_ path_ t).2 = Return r ->
  r = (lit "Folder created successfully", name_)
  /\ (exists parent,
        validate_path (cwd e) (user_directory e user_id) path_ = Return parent
        /\ exists_ e (get_user_directory e user_id t).1 (OsPath.join parent name_) = false
        /\ isdir e t' (OsPath.join parent name_) = true)
  /\ create_folder e user_id name_ path_ t'
     = (t', Raise (HTTPException HTTP_400_BAD_REQUEST (lit "Folder already exists"))).
Proof.
  intros t' Hcwd Hret. subst t'.
  unfold create_folder, io_try, io_bind, io_lift, io_read, io_ret, io_raise in *.
  destruct (get_user_directory e user_id t) as [t1 [ud|x]] eqn:E1;
    [|by destruct x].
  destruct (get_user_directory_inv _ _ _ _ _ E1) as (Hmk1 & Hud). subst ud.
  destruct (validate_path (cwd e) (user_directory e user_id) path_)
    as [parent|x] eqn:Ev; [|by destruct x].
  pose proof (validate_path_isabs _ _ _ _ Hcwd
                (user_directory_isabs e user_id Hcwd) Ev) as Hpabs.
  pose proof (isabs_join_any parent name_ Hpabs) as Hfabs.
  destruct (exists_ e t1 (OsPath.join parent name_)) eqn:Hex; [done|].
  destruct (makedirs e (OsPath.join parent name_) t1) as [t2 [[]|x]] eqn:Hmk2;
    [|by destruct x].
  simpl in *. injection Hret as <-. split; [done|].
  pose proof (makedirs_grows e (OsPath.join parent name_) t1) as Hsub.
  rewrite Hmk2 in Hsub. simpl in Hsub.
  assert (Hdir : isdir e t2 (OsPath.join parent name_) = true)
    by by eapply makedirs_isdir.
  split; [eauto|].
  rewrite (get_user_directory_again _ _ _ _ _ _ Hcwd E1 Hsub), Ev.
  assert (exists_ e t2 (OsPath.join parent name_) = true) as ->; [|done].
  unfold exists_. unfold isdir in Hdir.
  by destruct (stat e t2 (OsPath.join parent name_)).
Qed.

Lemma create_folder_twice_witness :
  let e := example_env in
  let t' := (create_folder e (lit "u1") (lit "reports") (lit "docs") example_tree).1 in
  (lit "Folder created successfully", lit "reports")
  = (lit "Folder created successfully", lit "reports")
  /\ (exists parent,
        validate_path (cwd e) (user_directory e (lit "u1")) (lit "docs")
        = Return parent
        /\ exists_ e (get_user_directory e (lit "u1") example_tree).1
             (OsPath.join parent (lit "reports")) = false
        /\ isdir e t' (OsPath.join parent (lit "reports")) = true)
  /\ create_folder e (lit "u1") (lit "reports") (lit "docs") t'
     = (t', Raise (HTTPException HTTP_400_BAD_REQUEST (lit "Folder already exists"))).
Proof.
  apply (create_folder_twice example_env (lit "u1") (lit "reports") (lit "docs")
           example_tree).
  - reflexivity.
  - vm_compute. reflexivity.
Defined.

(** *** [delete_file] and [download_file] *)

Lemma exists_resolved e t p :
  exists_ e t p = true -> exists q n, resolve e t p = inr q /\ kind t q = Some n.
Proof.
  unfold exists_, stat. destruct (resolve e t p) as [m|q]; [done|].
  destruct (kind t q) as [n|] eqn:Hk; [intros _; by exists q, n | done].
Qed.

(** Once the directory of the user is there, [delete_file] ends in one of
    two ways only: the validated path exists and the answer is success, or
    it does not and the answer is 404 with the storage unchanged. *)
Theorem delete_file_outcome e user_id path_ t user_dir :
  let t1 := (get_user_directory e user_id t).1 in
  isabs (cwd e) = true ->
  (get_user_directory e user_id t).2 = Return user_dir ->
  exists file_path_,
    validate_path (cwd e) user_dir path_ = Return file_path_
    /\ (delete_file e user_id path_ t).2
       = (if exists_ e t1 file_path_
          then Return (lit "File deleted successfully")
          else Raise (HTTPException HTTP_404_NOT_FOUND
                        (lit "File or directory not found")))
    /\ (exists_ e t1 file_path_ = false -> (delete_file e user_id path_ t).1 = t1).
Proof.
  intros t1 Hcwd Hud. subst t1.
  destruct (validate_path_total (cwd e) user_dir path_ Hcwd) as [fp Hfp].
  exists fp. split; [done|].
  unfold delete_file, io_try, io_bind, io_lift, io_read, io_ret, io_raise.
  destruct (get_user_directory e user_id t) as [t1 [ud|x]]; [|done].
  simpl in Hud. injection Hud as ->. rewrite Hfp. simpl.
  destruct (exists_ e t1 fp) eqn:Hex; simpl; [|done].
  split; [|done].
  destruct (exists_resolved _ _ _ Hex) as (q & n & Hq & Hn).
  assert (Hdir : isdir e t1 fp = is_dir n).
  { unfold isdir, stat. by rewrite Hq, Hn. }
  rewrite Hdir. destruct (is_dir n) eqn:Hd.
  - unfold rmtree. by rewrite Hq.
  - unfold remove. by rewrite Hq, Hn, Hd.
Qed.

Lemma delete_file_outcome_witness :
  let e := example_env in
  let t1 := (get_user_directory e (lit "u1") example_tree).1 in
  exists file_path_,
    validate_path (cwd e) (lit "/srv/app/uploads/u1") (lit "docs/old")
    = Return file_path_
    /\ (delete_file e (lit "u1") (lit "docs/old") example_tree).2
       = (if exists_ e t1 file_path_
          then Return (lit "File deleted successfully")
          else Raise (HTTPException HTTP_404_NOT_FOUND
                        (lit "File or directory not found")))
    /\ (exists_ e t1 file_path_ = false
        -> (delete_file e (lit "u1") (lit "docs/old") example_tree).1 = t1).
Proof.
  apply (delete_file_outcome example_env (lit "u1") (lit "docs/old") example_tree).
  - reflexivity.
  - vm_compute. reflexivity.
Defined.



(** Once the directory of the user is there, [download_file] answers with
    the validated path and the base name of the requested path when that
    path is a regular file, and with 404 otherwise (a directory included);
    it changes nothing else in the storage. *)
Theorem download_file_outcome e user_id path_ t user_dir :
  let t1 := (get_user_directory e user_id t).1 in
  isabs (cwd e) = true ->
  (get_user_directory e user_id t).2 = Return user_dir ->
  exists file_path_,
    validate_path (cwd e) user_dir path_ = Return file_path_
    /\ download_file e user_id path_ t
       = (t1, if isfile e t1 file_path_
              then Return (file_path_, basename path_)
              else Raise (HTTPException HTTP_404_NOT_FOUND (lit "File not found"))).
Proof.
  intros t1 Hcwd Hud. subst t1.
  destruct (validate_path_total (cwd e) user_dir path_ Hcwd) as [fp Hfp].
  exists fp. split; [done|].
  unfold download_file, io_try, io_bind, io_lift, io_read, io_ret, io_raise.
  destruct (get_user_directory e user_id t) as [t1 [ud|x]]; [|done].
  simpl in Hud. injection Hud as ->. rewrite Hfp. simpl.
  by destruct (isfile e t1 fp).
Qed.

Lemma download_file_outcome_witness :
  let e := example_env in
  let t1 := (get_user_directory e (lit "u1") example_tree).1 in
  exists file_path_,
    validate_path (cwd e) (lit "/srv/app/uploads/u1") (lit "docs")
    = Return file_path_
    /\ download_file e (lit "u1") (lit "docs") example_tree
       = (t1, if isfile e t1 file_path_
              then Return (file_path_, basename (lit "docs"))
              else Raise (HTTPException HTTP_404_NOT_FOUND (lit "File not found"))).
Proof.
  apply (download_file_outcome example_env (lit "u1") (lit "docs") example_tree).
  - reflexivity.
  - vm_compute. reflexivity.
Defined.

(** *** A stored upload *)

Lemma walk_insert_file (t : tree) q n comps : forall cur q',
  (forall d, kind t q = Some d -> is_dir d = false) ->
  walk t cur comps = inr q' -> walk (<[q := n]> t) cur comps = inr q'.
Proof.
  induction comps as [|c rest IH]; intros cur q' Hq; [done|]. simpl.
  destruct (kind t cur) as [d|] eqn:Hk; [|done].
  destruct (is_dir d) eqn:Hd; [|done].
  assert (Hne : cur <> q) by (intros ->; by rewrite (Hq d Hk) in Hd).
  assert (kind (<[q := n]> t) cur = Some d) as ->.
  { unfold kind in *. case_bool_decide; [done|]. by rewrite lookup_insert_ne. }
  rewrite Hd. by apply IH.
Qed.

Lemma write_file_stored e p n t t' :
  write_file e p n t = (t', Return tt) ->
  stat e t' p = Return (Node false n (now e)).
Proof.
  unfold write_file, stat, resolve.
  destruct (bool_decide (p = [])) eqn:Hp; [done|].
  destruct (walk t (start e p) (split sep p)) as [m|q] eqn:Hw; [done|].
  assert (Hgoal : (forall d, kind t q = Some d -> is_dir d = false) ->
            t' = <[q := Node false n (now e)]> t ->
            match walk t' (start e p) (split sep p) with
            | inl m => Raise (os_error m p)
            | inr q0 => match kind t' q0 with
                        | Some n0 => Return n0
                        | None => Raise (os_error ENOENT p)
                        end
            end = Return (Node false n (now e))).
  { intros Hq ->. rewrite (walk_insert_file _ _ _ _ _ _ Hq Hw).
    assert (q <> []) as Hne.
    { intros ->. by specialize (Hq root_node eq_refl). }
    unfold kind. rewrite bool_decide_eq_false_2 by done.
    by rewrite lookup_insert_eq. }
  destruct (kind t q) as [d|] eqn:Hk.
  - destruct (is_dir d) eqn:Hd; [done|].
    intros H. injection H as <-. apply Hgoal; [|done].
    intros d' Hd'. by injection Hd' as <-.
  - intros H. injection H as <-. by apply Hgoal.
Qed.

(** A successful [upload_file] was for an allowed type within the size
    cap; it answers with the original name, the stored name
    [<timestamp>_<name>] and the size, and afterwards the validated
    directory holds a regular file of exactly that size under the stored
    name. *)
Theorem upload_file_stored e user_id file path_ t resp :
  let t' := (upload_file e user_id file path_ t).1 in
  let stored := of_Z (now e) ++ lit "_" ++ filename file in
  (upload_file e user_id file path_ t).2 = Return resp ->
  allowed_file (filename file) = true
  /\ (len (body file) <= MAX_FILE_SIZE)%Z
  /\ resp = {| message := lit "File uploaded successfully";
               file_name := filename file;
               file_stored_name := stored;
               file_size := len (body file);
               file_path := if bool_decide (path_ <> [])
                            then OsPath.join path_ stored else stored |}
  /\ exists upload_dir,
       validate_path (cwd e) (user_directory e user_id) path_ = Return upload_dir
       /\ stat e t' (OsPath.join upload_dir stored)
          = Return (Node false (len (body file)) (now e)).
Proof.
  intros t' stored. subst t'.
  unfold upload_file, io_try.
  destruct (bool_decide (filename file = [])); [done|].
  destruct (allowed_file (filename file)); [|done]. cbn [negb].
  destruct (Z.ltb_spec MAX_FILE_SIZE (len (body file))) as [Hlt|Hle]; [done|].
  unfold upload_store, io_bind, io_lift, io_ret.
  destruct (get_user_directory e user_id t) as [t1 [ud|x]] eqn:E1;
    [|by destruct x].
  destruct (get_user_directory_inv _ _ _ _ _ E1) as (_ & ->).
  destruct (validate_path (cwd e) (user_directory e user_id) path_)
    as [upload_dir|x]; [|by destruct x].
  destruct (makedirs e upload_dir t1) as [t2 [[]|x]]; [|by destruct x].
  fold stored.
  destruct (write_file e (OsPath.join upload_dir stored) (len (body file)) t2)
    as [t3 [[]|x]] eqn:Hw; [|by destruct x].
  simpl. intros H. injection H as <-.
  split; [done|]. split; [done|]. split; [done|].
  exists upload_dir. split; [done|]. by eapply write_file_stored.
Qed.

Lemma upload_file_stored_witness :
  let e := example_env in
  let file := {| filename := lit "Plan.PDF"; body := lit "%PDF-1.7" |} in
  let t' := (upload_file e (lit "u1") file (lit "docs") example_tree).1 in
  let stored := of_Z (now e) ++ lit "_" ++ filename file in
  allowed_file (filename file) = true
  /\ (len (body file) <= MAX_FILE_SIZE)%Z
  /\ {| message := lit "File uploaded successfully";
        file_name := lit "Plan.PDF";
        file_stored_name := lit "1700000000_Plan.PDF";
        file_size := 8;
        file_path := lit "docs/1700000000_Plan.PDF" |}
     = {| message := lit "File uploaded successfully";
          file_name := filename file;
          file_stored_name := stored;
          file_size := len (body file);
          file_path := if bool_decide (lit "docs" <> [])
                       then OsPath.join (lit "docs") stored else stored |}
  /\ exists upload_dir,
       validate_path (cwd e) (user_directory e (lit "u1")) (lit "docs")
       = Return upload_dir
       /\ stat e t' (OsPath.join upload_dir stored)
          = Return (Node false (len (body file)) (now e)).
Proof.
  intros e file.
  apply (upload_file_stored e (lit "u1") file (lit "docs") example_tree).
  vm_compute. reflexivity.
Defined.

(** *** Operations that only add to the storage *)





(** *** A listing holds every entry of the directory *)

Lemma make_items_inv e t path_ full names items :
  make_items e t path_ full names = Return items ->
  map name items = names
  /\ Forall (fun x => exists st, stat e t (OsPath.join full (name x)) = Return st
                                 /\ x = item_for path_ (name x) st) items.
Proof.
  revert items. induction names as [|n names IH]; simpl; intros items H.
  - injection H as <-. by split.
  - unfold mbind, outcome_bind in H.
    destruct (make_item e t path_ full n) as [x|] eqn:Ex; [|done].
    destruct (make_items e t path_ full names) as [xs|]; [|done].
    injection H as <-. destruct (IH xs eq_refl) as (Hn & Hall).
    unfold make_item, mbind, outcome_bind in Ex.
    destruct (stat e t (OsPath.join full n)) as [st|] eqn:Hst; [|done].
    assert (Hd : isdir e t (OsPath.join full n) = is_dir st)
      by (unfold isdir; by rewrite Hst).
    rewrite Hd in Ex. injection Ex as <-. simpl. split; [by f_equal|].
    constructor; [|done]. simpl. by exists st.
Qed.

(** A listing that succeeds has one item for every entry of the validated
    directory: the names of the items are a rearrangement of what
    [os.listdir] gives, and each item carries the relative path, the kind
    and the size (files only) of its entry. *)
Theorem listing_complete e user_id path_ t resp :
  let t' := (get_file_tree e user_id path_ t).1 in
  (get_file_tree e user_id path_ t).2 = Return resp ->
  exists full names,
    validate_path (cwd e) (user_directory e user_id) path_ = Return full
    /\ listdir e t' full = Return names
    /\ current_path resp = path_
    /\ Permutation (map name (tree_ resp)) names
    /\ Forall (fun x => exists st,
                 stat e t' (OsPath.join full (name x)) = Return st
                 /\ x = item_for path_ (name x) st) (tree_ resp).
Proof.
  intros t'. subst t'.
  unfold get_file_tree, io_try, io_bind, io_ret, io_lift, io_raise.
  destruct (get_user_directory e user_id t) as [t1 [user_dir|x]] eqn:E1; [|done].
  destruct (get_user_directory_inv _ _ _ _ _ E1) as (_ & ->).
  destruct (validate_path (cwd e) (user_directory e user_id) path_)
    as [full|x]; [|done].
  destruct (makedirs e full t1) as [t2 [[]|x]]; [|done].
  destruct (listdir e t2 full) as [names|x] eqn:El; [|done].
  destruct (make_items e t2 path_ full names) as [items|x] eqn:Ei; [|done].
  simpl. intros H. injection H as <-. simpl.
  destruct (make_items_inv _ _ _ _ _ _ Ei) as (Hnames & Hall).
  exists full, names. split; [done|]. split; [done|]. split; [done|]. split.
  - rewrite <- Hnames. apply Permutation_map, sort_items_perm.
  - apply Forall_forall. intros x Hx.
    apply (proj1 (sort_items_elem _ _)) in Hx.
    rewrite Forall_forall in Hall. by apply Hall.
Qed.

Lemma listing_complete_witness :
  let e := example_env in
  let t' := (get_file_tree e (lit "u1") [] example_tree).1 in
  exists full names,
    validate_path (cwd e) (user_directory e (lit "u1")) [] = Return full
    /\ listdir e t' full = Return names
    /\ current_path example_listing = []
    /\ Permutation (map name (tree_ example_listing)) names
    /\ Forall (fun x => exists st,
                 stat e t' (OsPath.join full (name x)) = Return st
                 /\ x = item_for [] (name x) st) (tree_ example_listing).
Proof.
  apply (listing_complete example_env (lit "u1") [] example_tree example_listing).
  vm_compute. reflexivity.
Defined.

(** *** The path that [validate_path] returns, written out *)

Lemma names_endswith n (cs : list pystr) :
  cs <> [] -> Forall real_name cs ->
  endswith [sep] (replicate n sep ++ PyStr.join sep cs) = false.
Proof.
  intros Hne Hcs. destruct cs as [|x cs _] using rev_ind; [done|].
  apply Forall_app in Hcs as [_ Hx]. apply Forall_cons in Hx as [Hx _].
  rewrite join_snoc, !app_assoc.
  rewrite endswith_app_ne by by apply real_name_nonempty.
  by apply real_name_endswith.
Qed.

Lemma below_shape n (cs cu : list pystr) :
  (1 <= n <= 2)%nat -> Forall real_name cs ->
  replicate n sep ++ PyStr.join sep (cs ++ cu)
  = below (replicate n sep ++ PyStr.join sep cs) cu.
Proof.
  intros Hn Hcs. unfold below. rewrite join_app.
  destruct (bool_decide (cu = [])) eqn:Ecu.
  - apply bool_decide_eq_true in Ecu as ->.
    case_bool_decide as Hc; [by rewrite Hc|done].
  - apply bool_decide_eq_false in Ecu. case_bool_decide as Hc.
    + subst cs. simpl PyStr.join. rewrite app_nil_r.
      assert (dir_prefix (replicate n sep) = replicate n sep) as ->; [|done].
      assert (n = 1 \/ n = 2)%nat as [-> | ->] by lia; reflexivity.
    + unfold dir_prefix. rewrite names_endswith by done.
      by rewrite <- !app_assoc.
Qed.

Lemma nodd_component u c : nodd u = true -> c ∈ split sep u -> nodd c = true.
Proof.
  intros Hu Hc. destruct (split_infix _ _ _ Hc) as (a & b & ->).
  by apply nodd_app_r, nodd_app_l in Hu.
Qed.

(** For a non-empty user path, [validate_path] takes out every [..] and
    doubled separator as text and every empty and [.] component, and puts
    what is left below the absolute root: [..] is never resolved, and no
    component of the result below the root holds two dots in a row. *)
Theorem validate_path_explicit cwd_ base_path user_path :
  isabs cwd_ = true -> user_path <> [] ->
  validate_path cwd_ base_path user_path
  = Return (below (abspath cwd_ base_path) (kept_components user_path))
  /\ Forall (fun c => nodd c = true /\ real_name c) (kept_components user_path).
Proof.
  intros Hcwd Hu. rewrite validate_path_value by done.
  pose proof (normalize_user_path_nodd user_path) as Hdd.
  destruct (abspath_join_comps cwd_ base_path (normalize_user_path user_path)
              Hcwd (normalize_user_path_head _) (split_not_dotdot _ Hdd))
    as (Hn & Hnames & Hb & Hr).
  apply Forall_app in Hnames as [Hcs Hcu]. split.
  - rewrite Hr, Hb. f_equal. by apply below_shape.
  - apply Forall_forall. intros c Hc. split.
    + apply list_elem_of_filter in Hc as [_ Hc]. by eapply nodd_component.
    + rewrite Forall_forall in Hcu. by apply Hcu.
Qed.

Lemma validate_path_explicit_witness :
  validate_path (lit "/srv/app") (lit "uploads/u1") (lit "a/../b/./c..d//")
  = Return (below (abspath (lit "/srv/app") (lit "uploads/u1"))
              (kept_components (lit "a/../b/./c..d//")))
  /\ Forall (fun c => nodd c = true /\ real_name c)
       (kept_components (lit "a/../b/./c..d//")).
Proof.
  apply (validate_path_explicit (lit "/srv/app") (lit "uploads/u1")
           (lit "a/../b/./c..d//")).
  - reflexivity.
  - discriminate.
Defined.

Example confined_path_example :
  kept_components (lit "a/../b/./c..d//") = [lit "a"; lit "b"; lit "cd"]
  /\ below (abspath (lit "/srv/app") (lit "uploads/u1"))
       (kept_components (lit "a/../b/./c..d//"))
     = lit "/srv/app/uploads/u1/a/b/cd".
Proof. split; reflexivity. Qed.

(** *** Confinement of the operations to the directory of the user *)






















(** ** Logging in with Google *)

(** A login through [google_auth] succeeds only for an assertion that the
    provider verifies; the session token it issues passes
    [get_current_user] for the next 24 hours, with the provider's [sub] as
    the [id] and [google] as the provider, and the payload is the user
    data of the response with the expiry added. *)
Theorem google_login_round_trip verify_oauth2_token hs256 registered_claims_ok
    secret_key utcnow later token_ session user :
  let payload := <["exp"%string := JInt (utcnow + 24 * 3600)]> user in
  AuthRoutes.google_auth verify_oauth2_token hs256 secret_key utcnow token_
  = Return (session, user) ->
  (later <= utcnow + 24 * 3600)%Z ->
  registered_claims_ok later payload = true ->
  (exists idinfo, verify_oauth2_token token_ = Verified idinfo
                  /\ idinfo !! "sub"%string = user !! "id"%string)
  /\ (exists sub, user !! "id"%string = Some sub)
  /\ user !! "provider"%string = Some (JStr (lit "google"))
  /\ AuthMiddleware.get_current_user hs256 registered_claims_ok secret_key later
       session = Return payload.
Proof.
  intros payload Hlogin Hle Hok. unfold AuthRoutes.google_auth in Hlogin.
  destruct (verify_oauth2_token token_) as [idinfo|r|r]; [|done..].
  destruct (idinfo !! "sub"%string) as [sub|] eqn:Hsub; [|done].
  destruct (idinfo !! "email"%string) as [email|]; [|done].
  destruct (idinfo !! "name"%string) as [name_|]; [|done].
  injection Hlogin as <- <-.
  split; [exists idinfo; split; [done|]; by rewrite lookup_insert_eq|].
  split; [exists sub; by rewrite lookup_insert_eq|].
  split; [by rewrite !lookup_insert_ne, lookup_singleton_eq by done|].
  unfold AuthMiddleware.get_current_user, AuthMiddleware.verify_token.
  rewrite decode_issued by done. simpl.
  rewrite lookup_insert_ne, lookup_insert_eq by done. done.
Qed.

Lemma google_login_round_trip_witness :
  let session := AuthMiddleware.create_access_token example_mac (lit "k") 1000
                   (<["id"%string := JStr (lit "123")]>
                      (<["email"%string := JStr (lit "a@example.org")]>
                         (<["name"%string := JStr (lit "Ada")]>
                            (<["picture"%string := JStr []]>
                               {["provider"%string := JStr (lit "google")]}))))
                   None in
  let user : claims :=
    <["id"%string := JStr (lit "123")]>
      (<["email"%string := JStr (lit "a@example.org")]>
         (<["name"%string := JStr (lit "Ada")]>
            (<["picture"%string := JStr []]>
               {["provider"%string := JStr (lit "google")]}))) in
  let payload := <["exp"%string := JInt (1000 + 24 * 3600)]> user in
  (exists idinfo, example_verifier (lit "good") = Verified idinfo
                  /\ idinfo !! "sub"%string = user !! "id"%string)
  /\ (exists sub, user !! "id"%string = Some sub)
  /\ user !! "provider"%string = Some (JStr (lit "google"))
  /\ AuthMiddleware.get_current_user example_mac accept_all (lit "k") 5000
       session = Return payload.
Proof.
  intros session user.
  apply (google_login_round_trip example_verifier example_mac accept_all
           (lit "k") 1000 5000 (lit "good") session user).
  - reflexivity.
  - lia.
  - reflexivity.
Defined.

(** What [google_auth] answers when the login fails: 401 with the
    provider's reason for a rejected assertion, 500 naming the first of
    [sub], [email], [name] that the verified claims lack. *)
Example google_auth_failures :
  AuthRoutes.google_auth example_verifier example_mac (lit "k") 1000 (lit "bad")
  = Raise (HTTPException HTTP_401_UNAUTHORIZED
             (lit "Invalid Google token: Wrong number of segments in token"))
  /\ AuthRoutes.google_auth
       (fun _ => Verified {["sub"%string := JStr (lit "123")]})
       example_mac (lit "k") 1000 (lit "any")
     = Raise (HTTPException HTTP_500_INTERNAL_SERVER_ERROR
                (lit "Authentication failed: 'email'")).
Proof. split; reflexivity. Qed.

